(** * gym-socket-api, Go binding: wire codec and RPC client

    A shallow embedding of [binding-go/proto.go] and [binding-go/env.go].

    - Go's [[]byte] is [list byte]; Go's [string] is [string] (both are byte
      sequences, converted with [list_byte_of_string] / [string_of_list_byte]).
      A nil slice and an empty slice are both [[]]: the code only ever takes
      their [len].
    - Fixed-width integers are [Z] with the wrap-around written out.  Go's
      [int] is taken to be 64 bits wide (amd64, arm64).
    - A [float64] is its IEEE-754 bit pattern (what [math.Float64frombits]
      receives); no floating-point arithmetic happens in this code.
    - Functions that return [(T, error)] return a [result T]; functions that
      work on a stream or on the connection thread its state explicitly.
      [Step], with its five named results, returns all five. *)

From Stdlib Require Import ZArith List String Lia.
From Stdlib.Strings Require Import Byte.
From Stdlib.Numbers Require Import DecimalString.
From stdpp Require Import base option list strings gmap.

Local Open Scope string_scope.
Local Open Scope Z_scope.
Local Open Scope list_scope.

(** ** Bytes *)

Definition byte_to_Z (b : byte) : Z := Z.of_N (Byte.to_N b).

(** Go's conversion [byte(v)]: the low eight bits. *)
Definition byte_of_Z (z : Z) : byte :=
  default x00 (Byte.of_N (Z.to_N (z mod 256))).

(** ** Errors *)

(** The error values this code creates or passes on.  [CtxError] is the
    error type of [github.com/unixpickle/essentials]. *)
Inductive error : Type :=
| io_EOF
| io_ErrUnexpectedEOF
| errorString (s : string)          (* errors.New, fmt.Errorf *)
| libError (pkg msg : string)       (* an error value of net, os or encoding/json *)
| CtxError (Context : string) (Original : error).

(** The [Error() string] method. *)
Fixpoint Error (e : error) : string :=
  match e with
  | io_EOF => "EOF"
  | io_ErrUnexpectedEOF => "unexpected EOF"
  | errorString s => s
  | libError _ msg => msg
  | CtxError ctx orig => (ctx ++ ": " ++ Error orig)%string
  end.

(** essentials.AddCtx: a nil error stays nil. *)
Definition AddCtx (ctx : string) (err : option error) : option error :=
  match err with
  | None => None
  | Some e => Some (CtxError ctx e)
  end.

Inductive result (A : Type) : Type :=
| Ok (a : A)
| Err (e : error).
Arguments Ok {A} a.
Arguments Err {A} e.

(** ** Stateful, fallible code *)

(** A Go function working on a stream or connection of type [S]: it returns
    a value or an error, and the state it leaves behind in either case. *)
Definition IO (S A : Type) : Type := S -> result A * S.

Definition ret {S A} (a : A) : IO S A := fun s => (Ok a, s).
Definition fail {S A} (e : error) : IO S A := fun s => (Err e, s).
Definition bind {S A B} (m : IO S A) (k : A -> IO S B) : IO S B :=
  fun s => match m s with
           | (Ok a, s') => k a s'
           | (Err e, s') => (Err e, s')
           end.
Definition lift_result {S A} (r : result A) : IO S A := fun s => (r, s).

(** stdpp's monad notation: [x ← m; k] and [m ;; k]. *)
#[export] Instance IO_ret {S} : MRet (IO S) := fun A a => ret a.
#[export] Instance IO_bind {S} : MBind (IO S) := fun A B k m => bind m k.

(** ** io.Reader and io.Writer *)

(** Every read in this code goes through [io.ReadFull] (directly, or inside
    [binary.Read]), so a reader is given by what [io.ReadFull(r, buf)] does
    for [len(buf) = n]; a writer by what [w.Write(p)] does. *)
Class Reader (R : Type) := io_ReadFull : nat -> IO R (list byte).
Class Writer (W : Type) := io_Write : list byte -> IO W unit.

(** A [bytes.Buffer] / [bytes.Reader]: the unread bytes.  Reading past the
    end drains the buffer and yields [io.EOF] when nothing was read and
    [io.ErrUnexpectedEOF] otherwise; writing appends and never fails. *)
Definition bytes_ReadFull (n : nat) : IO (list byte) (list byte) :=
  fun s =>
    if (n <=? length s)%nat then (Ok (take n s), drop n s)
    else (Err (match s with [] => io_EOF | _ => io_ErrUnexpectedEOF end), []).

Definition bytes_Write (p : list byte) : IO (list byte) unit :=
  fun s => (Ok tt, s ++ p).

#[export] Instance bytes_Reader : Reader (list byte) := bytes_ReadFull.
#[export] Instance bytes_Writer : Writer (list byte) := bytes_Write.

(** ** encoding/binary, little endian *)

Definition PutUint32 (v : Z) : list byte :=
  [byte_of_Z v; byte_of_Z (Z.shiftr v 8);
   byte_of_Z (Z.shiftr v 16); byte_of_Z (Z.shiftr v 24)].

Definition Uint32 (b : list byte) : Z :=
  match b with
  | b0 :: b1 :: b2 :: b3 :: _ =>
      Z.lor (Z.lor (Z.lor (byte_to_Z b0) (Z.shiftl (byte_to_Z b1) 8))
                   (Z.shiftl (byte_to_Z b2) 16))
            (Z.shiftl (byte_to_Z b3) 24)
  | _ => 0
  end.

Definition Uint64 (b : list byte) : Z :=
  match b with
  | b0 :: b1 :: b2 :: b3 :: b4 :: b5 :: b6 :: b7 :: _ =>
      Z.lor (Z.lor (Z.lor (Z.lor (Z.lor (Z.lor (Z.lor
        (byte_to_Z b0) (Z.shiftl (byte_to_Z b1) 8))
        (Z.shiftl (byte_to_Z b2) 16)) (Z.shiftl (byte_to_Z b3) 24))
        (Z.shiftl (byte_to_Z b4) 32)) (Z.shiftl (byte_to_Z b5) 40))
        (Z.shiftl (byte_to_Z b6) 48)) (Z.shiftl (byte_to_Z b7) 56)
  | _ => 0
  end.

(** [uint32(n)] for a non-negative [int] n. *)
Definition uint32 (n : Z) : Z := n mod 2 ^ 32.

(** [int] arithmetic wraps around at 64 bits, two's complement. *)
Definition int_wrap (z : Z) : Z := (z + 2 ^ 63) mod 2 ^ 64 - 2 ^ 63.
Definition int_mul (a b : Z) : Z := int_wrap (a * b).

(** A float64 as its bit pattern. *)
Definition float64 : Type := Z.
Definition Float64frombits (bits : Z) : float64 := bits.

Section Binary.
Context {R : Type} `{!Reader R} {W : Type} `{!Writer W}.

(** binary.Read(r, byteOrder, &x) for x of type uint8, uint32, float64. *)
Definition binary_Read_uint8 : IO R Z :=
  bs ← io_ReadFull 1 ;
  ret (match bs with b :: _ => byte_to_Z b | [] => 0 end).

Definition binary_Read_uint32 : IO R Z :=
  bs ← io_ReadFull 4 ; ret (Uint32 bs).

Definition binary_Read_float64 : IO R float64 :=
  bs ← io_ReadFull 8 ; ret (Float64frombits (Uint64 bs)).

(** binary.Write(w, byteOrder, v) for v of type uint32. *)
Definition binary_Write_uint32 (v : Z) : IO W unit :=
  io_Write (PutUint32 v).
End Binary.

(** ** proto.go *)

Definition packetReset : Z := 0.
Definition packetStep : Z := 1.
Definition packetGetSpace : Z := 2.
Definition packetSampleAction : Z := 3.
Definition packetMonitor : Z := 4.
Definition packetRender : Z := 5.
Definition packetUpload : Z := 6.
Definition packetUniverseConfigure : Z := 7.
Definition packetUniverseWrap : Z := 8.
Definition packetRetroConfigure : Z := 9.
Definition packetRetroWrap : Z := 10.

Definition observationJSON : Z := 0.
Definition observationByteList : Z := 1.

Definition actionJSON : Z := 0.

Definition actionSpace : Z := 0.
Definition observationSpace : Z := 1.

(** [len(b)] as an [int]. *)
Definition len {A} (b : list A) : Z := Z.of_nat (length b).

(** The two implementations of the [Obs] interface that the decoder builds:
    [jsonObs(data)] and [&uint8Obs{Dims, Values}]. *)
Inductive Obs : Type :=
| jsonObs (data : list byte)
| uint8Obs (Dims : list Z) (Values : list byte).

(** [%d] of a non-negative integer. *)
Definition fmt_d (z : Z) : string := NilZero.string_of_int (Z.to_int z).

Section Codec.
Context {R : Type} `{!Reader R} {W : Type} `{!Writer W}.

Definition writeByteField (b : list byte) : IO W unit :=
  binary_Write_uint32 (uint32 (len b)) ;;
  io_Write b.

Definition readByteField : IO R (list byte) :=
  length ← binary_Read_uint32 ;
  if length =? 0 then ret []
  else io_ReadFull (Z.to_nat length).

Definition readErrorField : IO R unit :=
  errBytes ← readByteField ;
  if 0 <? len errBytes then fail (errorString (string_of_list_byte errBytes))
  else ret tt.

Definition writePacketType (typeID : Z) : IO W unit :=
  io_Write [byte_of_Z typeID].

Definition writeSpaceType (typeID : Z) : IO W unit :=
  writePacketType typeID.

Definition readReward : IO R float64 :=
  binary_Read_float64.

Definition readBool : IO R bool :=
  b ← binary_Read_uint8 ;
  if negb (b =? 0) && negb (b =? 1)
  then fail (errorString ("invalid bool: " ++ fmt_d b)%string)
  else ret (negb (b =? 0)).

Definition writeBool (b : bool) : IO W unit :=
  if b then io_Write [x01] else io_Write [x00].
End Codec.

(** The loop of [decodeUint8Obs]: [n] more dimensions to read from [r];
    returns the dimensions read and the running product. *)
Fixpoint decodeUint8Obs_dims (n : nat) (product : Z)
  : IO (list byte) (list Z * Z) :=
  match n with
  | O => ret ([], product)
  | S n' =>
      dim ← binary_Read_uint32 ;
      rec ← decodeUint8Obs_dims n' (int_mul product dim) ;
      ret (dim :: fst rec, snd rec)
  end.

(** [r.Len()] of a [bytes.Reader]: the number of unread bytes. *)
Definition bytes_Len : IO (list byte) Z := fun r => (Ok (len r), r).

Definition decodeUint8Obs (data : list byte) : result Obs :=
  let run : IO (list byte) Obs :=
    numDims ← binary_Read_uint32 ;
    if numDims =? 0 then fail (errorString "byte list has 0 dimensions")
    else
      rec ← decodeUint8Obs_dims (Z.to_nat numDims) 1 ;
      let dims := fst rec in
      let product := snd rec in
      rlen ← bytes_Len ;
      if negb (product =? rlen)
      then fail (errorString "incorrect byte list size")
      else ret (uint8Obs dims (drop (Z.to_nat (len data - product)) data))
  in fst (run data).

Section Observation.
Context {R : Type} `{!Reader R}.

Definition readObservation : IO R Obs :=
  typeID ← binary_Read_uint8 ;
  obsData ← readByteField ;
  if typeID =? observationJSON then ret (jsonObs obsData)
  else if typeID =? observationByteList then lift_result (decodeUint8Obs obsData)
  else fail (errorString ("unknown observation type: " ++ fmt_d typeID)%string).
End Observation.

(** ** The connection: net.Conn and bufio.ReadWriter *)

(** A TCP connection as the client sees it.
    - [incoming]: the bytes the client has not consumed yet, in order: what
      the peer sends until it closes its side.  The read-ahead buffer of the
      [bufio.Reader] is part of it; once it is used up a read meets EOF.
    - [sent]: the bytes handed to [conn.Write] so far, the bytes on the wire.
    - [fault]: the error [conn.Write] returns, if the transport is broken;
      a failing write transfers nothing.
    - [closed]: whether [Close] was called.  A closed connection fails every
      read and write. *)
Record net_Conn : Type := mkConn {
  incoming : list byte;
  sent : list byte;
  fault : option error;
  closed : bool
}.

Definition ErrClosed : error := libError "net" "use of closed network connection".

Definition conn_Write (p : list byte) : IO net_Conn unit :=
  fun cn =>
    if closed cn then (Err ErrClosed, cn)
    else match fault cn with
         | Some e => (Err e, cn)
         | None => (Ok tt, mkConn (incoming cn) (sent cn ++ p) (fault cn) (closed cn))
         end.

Definition conn_ReadFull (n : nat) : IO net_Conn (list byte) :=
  fun cn =>
    if closed cn then (Err ErrClosed, cn)
    else match bytes_ReadFull n (incoming cn) with
         | (r, s') => (r, mkConn s' (sent cn) (fault cn) (closed cn))
         end.

Definition conn_Close : IO net_Conn unit :=
  fun cn =>
    if closed cn then (Err ErrClosed, cn)
    else (Ok tt, mkConn (incoming cn) (sent cn) (fault cn) true).

(** A [bufio.ReadWriter] over a connection.  [wbuf] holds the bytes written
    but not flushed, [werr] the sticky error of the [bufio.Writer].  The
    buffer is taken to be unbounded: a real [bufio.Writer] also flushes by
    itself when its 4096 bytes are full, which sends the same bytes earlier
    and leaves the wire after a successful [Flush] the same. *)
Record ReadWriter : Type := mkRW {
  conn : net_Conn;
  wbuf : list byte;
  werr : option error
}.

Definition NewReadWriter (cn : net_Conn) : ReadWriter := mkRW cn [] None.

Definition bufio_Write (p : list byte) : IO ReadWriter unit :=
  fun b =>
    match werr b with
    | Some e => (Err e, b)
    | None => (Ok tt, mkRW (conn b) (wbuf b ++ p) (werr b))
    end.

Definition bufio_WriteByte (c : byte) : IO ReadWriter unit :=
  bufio_Write [c].

Definition bufio_Flush : IO ReadWriter unit :=
  fun b =>
    match werr b with
    | Some e => (Err e, b)
    | None =>
        match wbuf b with
        | [] => (Ok tt, b)
        | _ =>
            match conn_Write (wbuf b) (conn b) with
            | (Ok _, cn') => (Ok tt, mkRW cn' [] None)
            | (Err e, cn') => (Err e, mkRW cn' (wbuf b) (Some e))
            end
        end
    end.

Definition bufio_ReadFull (n : nat) : IO ReadWriter (list byte) :=
  fun b =>
    match conn_ReadFull n (conn b) with
    | (r, cn') => (r, mkRW cn' (wbuf b) (werr b))
    end.

#[export] Instance ReadWriter_Reader : Reader ReadWriter := bufio_ReadFull.
#[export] Instance ReadWriter_Writer : Writer ReadWriter := bufio_Write.

(** ** What the client takes from outside

    [encoding/json], [path/filepath] and [net] are not part of this code;
    it is stated over any implementation of them.  [Value] stands for the
    Go values that travel as [interface{}]; [ofMap] is the conversion of a
    [map[string]interface{}] to [interface{}], with [None] the nil map. *)
Class JSON : Type := {
  Value : Type;
  ofMap : option (gmap string Value) → Value;
  json_Marshal : Value → result (list byte);
  json_Unmarshal : list byte → result Value
}.

Class Platform : Type := {
  filepath_Abs : string → result string;
  net_Dial : string → string → result net_Conn
}.

(** ** essentials.AddCtxTo *)

(** [essentials.AddCtxTo(ctx, &err)] on the results of a function: it
    stores [AddCtx ctx err] in [err] and leaves the other results alone. *)
Definition AddCtxTo {A} (ctx : string) (r : result A) : result A :=
  match r with
  | Ok a => Ok a
  | Err e =>
      match AddCtx ctx (Some e) with
      | Some e' => Err e'
      | None => Err e
      end
  end.

(** [defer essentials.AddCtxTo(ctx, &err)]: runs when the function returns,
    on the error it returns. *)
Definition defer_AddCtxTo {S A} (ctx : string) (body : IO S A) : IO S A :=
  fun s =>
    match body s with
    | (r, s') => (AddCtxTo ctx r, s')
    end.

(** [essentials.AddCtxTo(ctx, &err)] as a plain statement at the top of a
    function: it runs at once, on the named result [err] that is still nil,
    and stores [AddCtx ctx nil].  Every [return] of the body assigns [err]
    afterwards. *)
Definition AddCtxTo_on_entry {S A} (ctx : string) (body : IO S A) : IO S A :=
  fun s =>
    let err := AddCtx ctx None in
    match body s with
    | (Ok a, s') => (Ok a, s')
    | (Err e, s') => (Err e, s')
    end.

(** [for _, x := range l { if err := f(x); err != nil { return err } }] *)
Fixpoint for_range {S A} (l : list A) (f : A → IO S unit) : IO S unit :=
  match l with
  | [] => ret tt
  | x :: l' => f x ;; for_range l' f
  end.

(** ** proto.go, continued: handshake and actions *)

Definition handshake (envName : string) : IO ReadWriter unit :=
  bufio_WriteByte x00 ;;
  writeByteField (list_byte_of_string envName) ;;
  bufio_Flush ;;
  readErrorField.

Section Action.
Context `{!JSON}.
Context {R : Type} `{!Reader R} {W : Type} `{!Writer W}.

(** [dst] is a pointer to an [interface{}]; the decoded value is returned. *)
Definition readAction : IO R Value :=
  typeID ← binary_Read_uint8 ;
  if negb (typeID =? 0)
  then fail (errorString ("unsupported action type: " ++ fmt_d typeID)%string)
  else
    jsonData ← readByteField ;
    lift_result (json_Unmarshal jsonData).

Definition writeAction (act : Value) : IO W unit :=
  jsonData ← lift_result (json_Marshal act) ;
  io_Write [byte_of_Z actionJSON] ;;
  writeByteField jsonData.
End Action.

(** ** env.go *)

(** [connEnv{Buf, Conn, CmdLock}].  [Conn] is the very connection that
    [Buf] reads from and writes to, so the two fields are one [ReadWriter]
    state and [Conn] is [conn] of it.  [CmdLock] is held from the entry of a
    method to its return; the embedding follows the calls of one goroutine,
    for which the mutex is free at every entry, so it carries no state
    here. *)
Definition connEnv : Type := ReadWriter.

(** The results of [Step]; [err] is the last of its five named results. *)
Record StepResults `{!JSON} : Type := mkStep {
  obs : option Obs;
  reward : float64;
  done : bool;
  info : option Value;
  err : option error
}.
Arguments mkStep {_} obs reward done info err.

Section Env.
Context `{!JSON} `{!Platform}.

(** Returns the handle or the error, and the state in which it leaves the
    connection it dialed (if any). *)
Definition Make (host envName : string) : result connEnv * option net_Conn :=
  match net_Dial "tcp" host with
  | Err e => (AddCtxTo "make environment" (Err e), None)
  | Ok cn =>
      let rw := NewReadWriter cn in
      match handshake envName rw with
      | (Err e, rw') =>
          let cn' := snd (conn_Close (conn rw')) in
          (AddCtxTo "make environment" (Err e), Some cn')
      | (Ok _, rw') => (Ok rw', Some (conn rw'))
      end
  end.

Definition Reset : IO connEnv Obs :=
  defer_AddCtxTo "reset environment" (
    writePacketType packetReset ;;
    bufio_Flush ;;
    readObservation).

Definition Step (action : Value) (c : connEnv) : StepResults * connEnv :=
  let '(r, c') :=
    match writePacketType packetStep c with
    | (Err e, c1) => (mkStep None 0 false None (Some e), c1)
    | (Ok _, c1) =>
    match writeAction action c1 with
    | (Err e, c2) => (mkStep None 0 false None (Some e), c2)
    | (Ok _, c2) =>
    match bufio_Flush c2 with
    | (Err e, c3) => (mkStep None 0 false None (Some e), c3)
    | (Ok _, c3) =>
    match readObservation c3 with
    | (Err e, c4) => (mkStep None 0 false None (Some e), c4)
    | (Ok o, c4) =>
    match readReward c4 with
    | (Err e, c5) => (mkStep (Some o) 0 false None (Some e), c5)
    | (Ok rw, c5) =>
    match readBool c5 with
    | (Err e, c6) => (mkStep (Some o) rw false None (Some e), c6)
    | (Ok d, c6) =>
    match readByteField c6 with
    | (Err e, c7) => (mkStep (Some o) rw d None (Some e), c7)
    | (Ok infoData, c7) =>
    match json_Unmarshal infoData with
    | Err e => (mkStep (Some o) rw d None (Some e), c7)
    | Ok i => (mkStep (Some o) rw d (Some i) None, c7)
    end end end end end end end end
  in
  (mkStep (obs r) (reward r) (done r) (info r)
          (AddCtx "step environment" (err r)), c').

Definition getSpace (spaceID : Z) : IO connEnv Value :=
  AddCtxTo_on_entry "get space info" (
    writePacketType packetGetSpace ;;
    writeSpaceType spaceID ;;
    bufio_Flush ;;
    data ← readByteField ;
    lift_result (json_Unmarshal data)).

Definition ActionSpace : IO connEnv Value := getSpace actionSpace.

Definition ObservationSpace : IO connEnv Value := getSpace observationSpace.

Definition SampleAction : IO connEnv Value :=
  AddCtxTo_on_entry "sample action" (
    writePacketType packetSampleAction ;;
    bufio_Flush ;;
    readAction).

Definition Monitor (dir : string) (force resume video : bool)
  : IO connEnv unit :=
  AddCtxTo_on_entry "monitor environment" (
    writePacketType packetMonitor ;;
    for_range [resume; force; video] writeBool ;;
    absDir ← lift_result (filepath_Abs dir) ;
    writeByteField (list_byte_of_string absDir) ;;
    bufio_Flush ;;
    errData ← readByteField ;
    if 0 <? len errData
    then fail (errorString (string_of_list_byte errData))
    else ret tt).

Definition Render : IO connEnv unit :=
  AddCtxTo_on_entry "render environment" (
    writePacketType packetRender ;;
    bufio_Flush).

Definition Close : IO connEnv unit :=
  fun c =>
    match conn_Close (conn c) with
    | (r, cn') => (r, mkRW cn' (wbuf c) (werr c))
    end.

(** [if options == nil { options = map[string]interface{}{} }] *)
Definition options_or_empty (options : option (gmap string Value))
  : option (gmap string Value) :=
  match options with
  | None => Some ∅
  | Some m => Some m
  end.

Definition UniverseConfigure (options : option (gmap string Value))
  : IO connEnv unit :=
  let options := options_or_empty options in
  AddCtxTo_on_entry "configure Universe environment" (
    writePacketType packetUniverseConfigure ;;
    jsonData ← lift_result (json_Marshal (ofMap options)) ;
    writeByteField jsonData ;;
    bufio_Flush ;;
    readErrorField).

Definition UniverseWrap (wrapper : string)
    (options : option (gmap string Value)) : IO connEnv unit :=
  let options := options_or_empty options in
  AddCtxTo_on_entry "wrap Universe environment" (
    writePacketType packetUniverseWrap ;;
    writeByteField (list_byte_of_string wrapper) ;;
    jsonData ← lift_result (json_Marshal (ofMap options)) ;
    writeByteField jsonData ;;
    bufio_Flush ;;
    readErrorField).

Definition RetroConfigure (options : option (gmap string Value))
  : IO connEnv unit :=
  let options := options_or_empty options in
  AddCtxTo_on_entry "configure Retro environment" (
    writePacketType packetRetroConfigure ;;
    jsonData ← lift_result (json_Marshal (ofMap options)) ;
    writeByteField jsonData ;;
    bufio_Flush ;;
    readErrorField).

Definition RetroWrap (wrapper : string)
    (options : option (gmap string Value)) : IO connEnv unit :=
  let options := options_or_empty options in
  AddCtxTo_on_entry "wrap Retro environment" (
    writePacketType packetRetroWrap ;;
    writeByteField (list_byte_of_string wrapper) ;;
    jsonData ← lift_result (json_Marshal (ofMap options)) ;
    writeByteField jsonData ;;
    bufio_Flush ;;
    readErrorField).
End Env.

(** * Specification vocabulary *)

(** Unfolding the monad operations. *)
Ltac io_unfold :=
  unfold mbind, IO_bind, bind, mret, IO_ret, ret, fail, lift_result in *.

(** ** ByteField round trip *)

(** The round trip at one byte sequence [B]: written into an empty buffer,
    [B] takes [4 + len(B)] bytes, and reading the field back from those
    bytes, whatever follows them, returns [B] and leaves what follows. *)
Definition byteField_roundtrip (B : list byte) : Prop :=
  ∀ rest : list byte, ∃ s : list byte,
    writeByteField B [] = (Ok tt, s)
    ∧ length s = (4 + length B)%nat
    ∧ readByteField (s ++ rest) = (Ok B, rest).

(** ** Shaped byte arrays *)

(** The layout [uint32 ndims || uint32 dim[ndims] || bytes]. *)
Definition encode_dims (ds : list Z) : list byte := flat_map PutUint32 ds.

Definition shaped_payload (ds : list Z) (payload : list byte) : list byte :=
  PutUint32 (len ds) ++ encode_dims ds ++ payload.

(** The product of the declared dimension sizes, as a number. *)
Definition shape_product (ds : list Z) : Z := fold_right Z.mul 1 ds.

Definition is_uint32 (d : Z) : Prop := 0 ≤ d < 2 ^ 32.

(** Four dimension sizes whose product is 2^64. *)
Definition overflow_dims : list Z := [65536; 65536; 65536; 65536].

(** ** Wire layouts *)

(** ByteField: a 4-byte little-endian length, then the bytes. *)
Definition ByteField (b : list byte) : list byte := PutUint32 (len b) ++ b.

(** A boolean on the wire. *)
Definition bool_byte (b : bool) : byte := if b then x01 else x00.

(** [enc] is an encoding of [v] for the reader [rd]: [rd] consumes exactly
    [enc] from the front of a stream and returns [v]. *)
Definition reads_as {A} (rd : IO (list byte) A) (enc : list byte) (v : A) : Prop :=
  ∀ rest : list byte, rd (enc ++ rest) = (Ok v, rest).

(** ** Connections *)

Definition set_incoming (s : list byte) (c : ReadWriter) : ReadWriter :=
  mkRW (mkConn s (sent (conn c)) (fault (conn c)) (closed (conn c)))
       (wbuf c) (werr c).

(** A reader of byte streams run on the incoming bytes of a connection. *)
Definition lift_read {A} (m : IO (list byte) A) : IO ReadWriter A :=
  fun c => match m (incoming (conn c)) with (r, s') => (r, set_incoming s' c) end.

Definition lifts {A} (mc : IO ReadWriter A) (mb : IO (list byte) A) : Prop :=
  ∀ c : ReadWriter, closed (conn c) = false → mc c = lift_read mb c.

(** An open connection with a working transport and no sticky write error. *)
Definition healthy (c : ReadWriter) : Prop :=
  closed (conn c) = false ∧ fault (conn c) = None ∧ werr c = None.

(** The state of a healthy connection after the client has written [req],
    flushed, and consumed the response down to [rest]: everything written
    so far is on the wire. *)
Definition exchanged (c : ReadWriter) (req rest : list byte) : ReadWriter :=
  mkRW (mkConn rest (sent (conn c) ++ wbuf c ++ req) None false) [] None.

(** ** An implementation of the outside, to instantiate statements

    JSON values are kept as their text, as with [json.RawMessage]; every
    path is taken as absolute already; three hosts answer a dial. *)
Definition demo_JSON : JSON := {|
  Value := list byte;
  ofMap := fun m =>
    match m with
    | None => list_byte_of_string "null"
    | Some m =>
        list_byte_of_string "{"
        ++ flat_map (fun kv => list_byte_of_string (fst kv) ++ snd kv)
                    (map_to_list m)
        ++ list_byte_of_string "}"
    end;
  json_Marshal := fun v => Ok v;
  json_Unmarshal := fun b =>
    match b with
    | [] => Err (libError "json" "unexpected end of JSON input")
    | _ => Ok b
    end
|}.

Definition demo_Platform : Platform := {|
  filepath_Abs := fun p => Ok p;
  net_Dial := fun network host =>
    if String.eqb host "gym:5001"
    then Ok (mkConn (ByteField []) [] None false)
    else if String.eqb host "other:5001"
    then Ok (mkConn (ByteField (list_byte_of_string "no such env")) [] None false)
    else Err (libError "net" "connection refused")
|}.

(** A fresh, idle handle whose peer will send [resp]. *)
Definition idle (resp : list byte) : ReadWriter :=
  mkRW (mkConn resp [] None false) [] None.

(** ** Requests and responses *)

(** The request of [Step] for an action whose JSON text is [js], and a
    response laid out as [Observation || float64 || byte || ByteField]. *)
Definition Step_request (js : list byte) : list byte :=
  [byte_of_Z packetStep; byte_of_Z actionJSON] ++ ByteField js.

Definition Step_response (ob rb : list byte) (d : bool) (ib : list byte)
  : list byte :=
  ob ++ rb ++ [bool_byte d] ++ ByteField ib.

(** The request of [Monitor], with the path as sent. *)
Definition Monitor_request (resume force video : bool) (absDir : string)
  : list byte :=
  [byte_of_Z packetMonitor; bool_byte resume; bool_byte force; bool_byte video]
  ++ ByteField (list_byte_of_string absDir).

(** The requests of the configure and wrap calls. *)
Definition Configure_request (packet : Z) (js : list byte) : list byte :=
  [byte_of_Z packet] ++ ByteField js.

Definition Wrap_request (packet : Z) (wrapper : string) (js : list byte)
  : list byte :=
  [byte_of_Z packet] ++ ByteField (list_byte_of_string wrapper) ++ ByteField js.

(** What a call amounts to that writes [req], flushes, and then reads an
    ErrorField from the incoming bytes. *)
Definition request_then_ErrorField (c : ReadWriter) (req : list byte)
  : result unit * ReadWriter :=
  match readErrorField (incoming (conn c)) with
  | (r, s') => (r, exchanged c req s')
  end.

(** Sample data for instantiating statements. *)
Definition demo_action : list byte := list_byte_of_string "1".
Definition demo_obs : list byte :=
  x00 :: ByteField (list_byte_of_string "[0.5,0.1]").
Definition demo_reward : list byte := [x00; x00; x00; x00; x00; x00; xf0; x3f].
Definition demo_info : list byte := list_byte_of_string "{}".
Definition demo_results : @StepResults demo_JSON :=
  @mkStep demo_JSON (Some (jsonObs (list_byte_of_string "[0.5,0.1]")))
          (Float64frombits (Uint64 demo_reward)) true (Some demo_info) None.

(** What a call amounts to that writes [req], flushes, and then runs the
    reader [rd] on the incoming bytes. *)
Definition request_then {A} (rd : IO (list byte) A) (c : ReadWriter)
    (req : list byte) : result A * ReadWriter :=
  match rd (incoming (conn c)) with
  | (r, s') => (r, exchanged c req s')
  end.

(** The connection with [bs] more bytes written but not flushed. *)
Definition pending (c : ReadWriter) (bs : list byte) : ReadWriter :=
  mkRW (conn c) (wbuf c ++ bs) (werr c).

(** A call that returns an error and leaves the connection as it was:
    nothing sent, nothing consumed. *)
Definition fails_untouched {A} (m : IO ReadWriter A) (c : ReadWriter) : Prop :=
  ∃ e c', m c = (Err e, c') ∧ conn c' = conn c.


Definition lost_Platform : Platform := {|
  filepath_Abs := fun p =>
    if String.prefix "/" p then Ok p
    else Err (libError "os" "getwd: no such file or directory");
  net_Dial := fun network host =>
    if String.eqb host "mute:5001" then Ok (mkConn [] [] None false)
    else Err (libError "net" "connection refused")
|}.


(** What the reading of an ErrorField with message [msg] returns: nil for
    the empty message, otherwise an error with the message as its text. *)
Definition ErrorField_result (msg : list byte) : result unit :=
  match msg with
  | [] => Ok tt
  | _ => Err (errorString (string_of_list_byte msg))
  end.

(** The size of the buffer of [bufio.NewWriter]. *)
Definition defaultBufSize : Z := 4096.

(** The call [m] in state [s] is where a sequence of calls fails, with
    error [e] and final state [s'], or it succeeds and the failure is in
    what comes [next]. *)
Definition fails_here_or {S A} (m : IO S A) (s : S) (e : error) (s' : S)
    (next : A → S → Prop) : Prop :=
  m s = (Err e, s') ∨ ∃ a s1, m s = (Ok a, s1) ∧ next a s1.

(** * Properties *)

(** ** Bytes and little-endian words *)

Lemma byte_to_Z_range (b : byte) : 0 ≤ byte_to_Z b < 256.
Proof.
  unfold byte_to_Z. pose proof (Byte.to_N_bounded b). lia.
Qed.

Lemma byte_of_to_Z (b : byte) : byte_of_Z (byte_to_Z b) = b.
Proof.
  unfold byte_of_Z. pose proof (byte_to_Z_range b) as Hb.
  rewrite Z.mod_small by lia.
  unfold byte_to_Z. rewrite N2Z.id, Byte.of_to_N. reflexivity.
Qed.

Lemma byte_to_of_Z (z : Z) : byte_to_Z (byte_of_Z z) = z mod 256.
Proof.
  unfold byte_of_Z, byte_to_Z.
  pose proof (Z.mod_pos_bound z 256 ltac:(lia)) as Hz.
  destruct (Byte.of_N (Z.to_N (z mod 256))) as [b|] eqn:E.
  - apply Byte.to_of_N in E. simpl. rewrite E. lia.
  - apply Byte.of_N_None_iff in E. lia.
Qed.

Lemma byte_of_Z_mod (z : Z) : byte_of_Z (z mod 256) = byte_of_Z z.
Proof.
  unfold byte_of_Z. rewrite Z.mod_mod by lia. reflexivity.
Qed.

(** A shifted word does not overlap the bits below the shift. *)
Lemma lor_shiftl_add (a b n : Z) :
  0 ≤ n → 0 ≤ a < 2 ^ n → Z.lor a (Z.shiftl b n) = a + b * 2 ^ n.
Proof.
  intros Hn Ha. rewrite <- Z.shiftl_mul_pow2 by lia.
  symmetry. apply Z.add_nocarry_lor.
  apply Z.bits_inj'. intros i Hi.
  rewrite Z.land_spec, Z.bits_0.
  destruct (Z.lt_ge_cases i n) as [Hlt|Hge].
  - rewrite Z.shiftl_spec_low by lia. apply andb_false_r.
  - rewrite <- (Z.mod_small a (2 ^ n)) by lia.
    rewrite Z.mod_pow2_bits_high by lia. reflexivity.
Qed.

Lemma Uint32_sum (b0 b1 b2 b3 : byte) (tl : list byte) :
  Uint32 (b0 :: b1 :: b2 :: b3 :: tl)
  = byte_to_Z b0 + byte_to_Z b1 * 2 ^ 8 + byte_to_Z b2 * 2 ^ 16
    + byte_to_Z b3 * 2 ^ 24.
Proof.
  unfold Uint32.
  pose proof (byte_to_Z_range b0). pose proof (byte_to_Z_range b1).
  pose proof (byte_to_Z_range b2). pose proof (byte_to_Z_range b3).
  rewrite (lor_shiftl_add _ _ 8) by lia.
  rewrite (lor_shiftl_add _ _ 16) by lia.
  rewrite (lor_shiftl_add _ _ 24) by lia.
  reflexivity.
Qed.

Lemma Uint32_range (bs : list byte) : 0 ≤ Uint32 bs < 2 ^ 32.
Proof.
  destruct bs as [|b0 [|b1 [|b2 [|b3 tl]]]]; try (simpl; lia).
  rewrite Uint32_sum.
  pose proof (byte_to_Z_range b0). pose proof (byte_to_Z_range b1).
  pose proof (byte_to_Z_range b2). pose proof (byte_to_Z_range b3).
  lia.
Qed.

Lemma Uint32_PutUint32 (v : Z) : Uint32 (PutUint32 v) = v mod 2 ^ 32.
Proof.
  unfold PutUint32. rewrite Uint32_sum, !byte_to_of_Z.
  rewrite !Z.shiftr_div_pow2 by lia.
  change (2 ^ 8) with 256. change (2 ^ 16) with 65536.
  change (2 ^ 24) with 16777216. change (2 ^ 32) with 4294967296.
  Z.div_mod_to_equations. lia.
Qed.

Lemma byte_of_Z_eq (z : Z) (b : byte) :
  z mod 256 = byte_to_Z b → byte_of_Z z = b.
Proof.
  intros H. rewrite <- byte_of_Z_mod, H. apply byte_of_to_Z.
Qed.

Lemma PutUint32_Uint32 (b0 b1 b2 b3 : byte) (tl : list byte) :
  PutUint32 (Uint32 (b0 :: b1 :: b2 :: b3 :: tl)) = [b0; b1; b2; b3].
Proof.
  rewrite Uint32_sum. unfold PutUint32.
  pose proof (byte_to_Z_range b0). pose proof (byte_to_Z_range b1).
  pose proof (byte_to_Z_range b2). pose proof (byte_to_Z_range b3).
  rewrite !Z.shiftr_div_pow2 by lia.
  change (2 ^ 8) with 256. change (2 ^ 16) with 65536.
  change (2 ^ 24) with 16777216.
  repeat f_equal; apply byte_of_Z_eq; Z.div_mod_to_equations; lia.
Qed.

(** ** Reading from and writing to a byte buffer *)


Lemma len_app {A} (l k : list A) : len (l ++ k) = len l + len k.
Proof. unfold len. rewrite length_app. lia. Qed.

Lemma len_nonneg {A} (l : list A) : 0 ≤ len l.
Proof. unfold len. lia. Qed.

Lemma bytes_ReadFull_app (n : nat) (pre rest : list byte) :
  n = length pre → io_ReadFull n (pre ++ rest) = (Ok pre, rest).
Proof.
  intros ->. unfold io_ReadFull, bytes_Reader, bytes_ReadFull.
  rewrite length_app.
  destruct (Nat.leb_spec (length pre) (length pre + length rest)); [|lia].
  rewrite take_app_length, drop_app_length. reflexivity.
Qed.

Lemma bytes_ReadFull_inv (n : nat) (s bs s' : list byte) :
  io_ReadFull n s = (Ok bs, s') → s = bs ++ s' ∧ length bs = n.
Proof.
  unfold io_ReadFull, bytes_Reader, bytes_ReadFull.
  destruct (Nat.leb_spec n (length s)); [|discriminate].
  intros [= <- <-]. rewrite take_drop, length_take. split; [reflexivity|lia].
Qed.

Lemma binary_Read_uint32_app (v : Z) (rest : list byte) :
  binary_Read_uint32 (PutUint32 v ++ rest) = (Ok (v mod 2 ^ 32), rest).
Proof.
  unfold binary_Read_uint32. io_unfold.
  rewrite (bytes_ReadFull_app 4 (PutUint32 v)) by reflexivity.
  rewrite Uint32_PutUint32. reflexivity.
Qed.

Lemma binary_Read_uint32_inv (s s' : list byte) (v : Z) :
  binary_Read_uint32 s = (Ok v, s') →
  s = PutUint32 v ++ s' ∧ 0 ≤ v < 2 ^ 32.
Proof.
  unfold binary_Read_uint32. io_unfold.
  destruct (io_ReadFull 4 s) as [[bs|e] s1] eqn:E; [|discriminate].
  intros [= <- <-]. apply bytes_ReadFull_inv in E as [-> Hl].
  split; [|apply Uint32_range].
  destruct bs as [|b0 [|b1 [|b2 [|b3 [|]]]]]; try discriminate.
  rewrite PutUint32_Uint32. reflexivity.
Qed.

Lemma writeByteField_bytes (b w : list byte) :
  writeByteField b w = (Ok tt, w ++ PutUint32 (uint32 (len b)) ++ b).
Proof.
  unfold writeByteField, binary_Write_uint32. io_unfold.
  unfold io_Write, bytes_Writer, bytes_Write. rewrite <- app_assoc.
  reflexivity.
Qed.

(** What [readByteField] does on a length word followed by at least that
    many bytes. *)
Lemma readByteField_app (n : Z) (b rest : list byte) :
  n mod 2 ^ 32 = len b →
  readByteField (PutUint32 n ++ b ++ rest) = (Ok b, rest).
Proof.
  intros Hn. unfold readByteField. io_unfold.
  rewrite binary_Read_uint32_app, Hn.
  destruct (Z.eqb_spec (len b) 0) as [H0|H0].
  - destruct b; [reflexivity|]. unfold len in H0. simpl in H0. lia.
  - apply bytes_ReadFull_app. unfold len. lia.
Qed.

Lemma readByteField_inv (s s' b : list byte) :
  readByteField s = (Ok b, s') →
  s = PutUint32 (len b) ++ b ++ s' ∧ len b < 2 ^ 32.
Proof.
  unfold readByteField. io_unfold.
  destruct (binary_Read_uint32 s) as [[n|e] s1] eqn:E; [|discriminate].
  apply binary_Read_uint32_inv in E as [-> Hn].
  destruct (Z.eqb_spec n 0) as [->|H0].
  - intros [= <- <-]. split; [reflexivity|]. unfold len. simpl. lia.
  - intros E. apply bytes_ReadFull_inv in E as [-> Hl].
    unfold len. rewrite Hl, Z2Nat.id by lia. split; [reflexivity|lia].
Qed.

(** ** C1: ByteField round trip *)


Lemma byteField_roundtrip_fails_at (B : list byte) :
  len B = 2 ^ 32 → ¬ byteField_roundtrip B.
Proof.
  intros HB Hrt. destruct (Hrt []) as (s & Hw & _ & Hr).
  rewrite writeByteField_bytes, app_nil_l in Hw.
  assert (s = PutUint32 (uint32 (len B)) ++ B) as -> by congruence.
  rewrite HB, <- app_assoc in Hr.
  pose proof (readByteField_app (uint32 (2 ^ 32)) [] (B ++ []) eq_refl) as H0.
  rewrite app_nil_l in H0. rewrite H0 in Hr.
  injection Hr as Hr _. subst B. discriminate HB.
Qed.

(** C1 (as amended): for every byte sequence [B] shorter than 2^32 bytes,
    the empty one included, [writeByteField] followed by [readByteField]
    gives back exactly [B] and consumes exactly [4 + len(B)] bytes. *)
Theorem byteField_roundtrip_short (B : list byte) :
  len B < 2 ^ 32 → byteField_roundtrip B.
Proof.
  intros HB rest. exists (PutUint32 (uint32 (len B)) ++ B). split; [|split].
  - rewrite writeByteField_bytes. reflexivity.
  - rewrite length_app. reflexivity.
  - rewrite <- app_assoc. apply readByteField_app.
    unfold uint32. pose proof (len_nonneg B).
    rewrite Z.mod_mod by lia. apply Z.mod_small. lia.
Qed.

Lemma byteField_roundtrip_short_witness :
  byteField_roundtrip [] ∧ byteField_roundtrip [x67; x79; x6d].
Proof.
  split; apply byteField_roundtrip_short; vm_compute; reflexivity.
Defined.

(** C1 (as stated) fails: a sequence of 2^32 bytes is written with the
    length word 0, and reading it back returns the empty sequence after
    consuming 4 bytes. *)
Lemma byteField_roundtrip_counterexample :
  ¬ byteField_roundtrip (repeat x00 (Z.to_nat (2 ^ 32))).
Proof.
  apply byteField_roundtrip_fails_at.
  unfold len. rewrite repeat_length. apply Z2Nat.id. lia.
Qed.

(** ** C2: decoding a shaped byte array *)


Lemma int_wrap_small (z : Z) : - 2 ^ 63 ≤ z < 2 ^ 63 → int_wrap z = z.
Proof.
  intros H. unfold int_wrap. rewrite Z.mod_small; lia.
Qed.

Lemma int_wrap_mul_l (a b : Z) : int_wrap (int_wrap a * b) = int_wrap (a * b).
Proof.
  unfold int_wrap. f_equal.
  replace ((a + 2 ^ 63) `mod` 2 ^ 64 - 2 ^ 63) with
    (a + (- ((a + 2 ^ 63) `div` 2 ^ 64)) * 2 ^ 64)
    by (pose proof (Z.div_mod (a + 2 ^ 63) (2 ^ 64) ltac:(lia)); lia).
  replace ((a + - ((a + 2 ^ 63) `div` 2 ^ 64) * 2 ^ 64) * b + 2 ^ 63)
    with (a * b + 2 ^ 63 + (- ((a + 2 ^ 63) `div` 2 ^ 64) * b) * 2 ^ 64) by lia.
  apply Z.mod_add. lia.
Qed.

(** The loop reads the dimensions in order and multiplies them up in
    wrapping [int] arithmetic. *)
Lemma decodeUint8Obs_dims_app (ds : list Z) (p : Z) (rest : list byte) :
  Forall is_uint32 ds →
  decodeUint8Obs_dims (length ds) p (encode_dims ds ++ rest)
  = (Ok (ds, int_wrap (p * shape_product ds)), rest) ∨ ds = [].
Proof.
  intros Hds. revert p. induction Hds as [|d ds Hd Hds IH]; intros p.
  - right. reflexivity.
  - left. cbn [decodeUint8Obs_dims length]. unfold encode_dims. cbn [flat_map].
    rewrite <- app_assoc. io_unfold.
    rewrite binary_Read_uint32_app.
    rewrite Z.mod_small by exact Hd.
    destruct (IH (int_mul p d)) as [E| ->].
    + fold (encode_dims ds). rewrite E. simpl fst. simpl snd.
      unfold int_mul. rewrite int_wrap_mul_l.
      unfold shape_product. cbn [fold_right]. rewrite Z.mul_assoc.
      reflexivity.
    + cbn [decodeUint8Obs_dims length encode_dims flat_map app fst snd].
      unfold int_mul, shape_product. cbn [fold_right].
      rewrite Z.mul_1_r. reflexivity.
Qed.

Lemma decodeUint8Obs_dims_cons (d : Z) (ds : list Z) (rest : list byte) :
  Forall is_uint32 (d :: ds) →
  decodeUint8Obs_dims (length (d :: ds)) 1 (encode_dims (d :: ds) ++ rest)
  = (Ok (d :: ds, int_wrap (shape_product (d :: ds))), rest).
Proof.
  intros H. destruct (decodeUint8Obs_dims_app (d :: ds) 1 rest H) as [E|E];
    [|discriminate].
  rewrite E. rewrite Z.mul_1_l. reflexivity.
Qed.

(** What [decodeUint8Obs] does on every payload of the shaped layout: the
    comparison is between the wrapped product and the byte count. *)
Lemma decodeUint8Obs_shaped (ds : list Z) (payload : list byte) :
  len ds < 2 ^ 32 → Forall is_uint32 ds →
  decodeUint8Obs (shaped_payload ds payload)
  = if len ds =? 0 then Err (errorString "byte list has 0 dimensions")
    else if int_wrap (shape_product ds) =? len payload
         then Ok (uint8Obs ds payload)
         else Err (errorString "incorrect byte list size").
Proof.
  intros Hn Hds. unfold decodeUint8Obs, shaped_payload. io_unfold.
  rewrite binary_Read_uint32_app.
  pose proof (len_nonneg ds) as Hn0.
  rewrite Z.mod_small by lia.
  destruct (Z.eqb_spec (len ds) 0) as [H0|H0]; [reflexivity|].
  destruct ds as [|d ds]; [exfalso; apply H0; reflexivity|].
  replace (Z.to_nat (len (d :: ds))) with (length (d :: ds))
    by (unfold len; lia).
  rewrite decodeUint8Obs_dims_cons by exact Hds.
  cbn [fst snd]. unfold bytes_Len.
  destruct (Z.eqb_spec (int_wrap (shape_product (d :: ds))) (len payload))
    as [E|E]; [|reflexivity].
  cbn [negb fst]. do 2 f_equal.
  rewrite E, app_assoc, len_app.
  replace (Z.to_nat (_ + len payload - len payload))
    with (length (PutUint32 (len (d :: ds)) ++ encode_dims (d :: ds)))
    by (unfold len; lia).
  apply drop_app_length.
Qed.

(** X24: where the product of the declared sizes fits an [int], the decoder
    does what the shape rule says: it succeeds exactly when there is at least one
    dimension and the product equals the number of payload bytes, and then
    returns the declared dimensions and the payload bytes. *)
Lemma decodeUint8Obs_no_overflow (ds : list Z) (payload : list byte) (o : Obs) :
  len ds < 2 ^ 32 → Forall is_uint32 ds → shape_product ds < 2 ^ 63 →
  decodeUint8Obs (shaped_payload ds payload) = Ok o
  ↔ len ds ≠ 0 ∧ shape_product ds = len payload ∧ o = uint8Obs ds payload.
Proof.
  intros Hn Hds Hp. rewrite decodeUint8Obs_shaped by assumption.
  assert (0 ≤ shape_product ds) as Hp0.
  { clear Hn Hp. induction Hds as [|d ds Hd _ IH]; [simpl; lia|].
    unfold shape_product in *. cbn [fold_right]. unfold is_uint32 in Hd. nia. }
  rewrite int_wrap_small by lia.
  destruct (Z.eqb_spec (len ds) 0) as [H0|H0].
  - split; [discriminate|]. intros [H _]. contradiction.
  - destruct (Z.eqb_spec (shape_product ds) (len payload)) as [E|E].
    + split; [intros [= <-]; auto|]. intros (_ & _ & ->). reflexivity.
    + split; [discriminate|]. intros (_ & H & _). contradiction.
Qed.

(** Dimensions [2,3]: six payload bytes decode to the same dimensions and
    bytes; five or seven are a shape mismatch. *)
Lemma decodeUint8Obs_2_3 (payload : list byte) :
  decodeUint8Obs (shaped_payload [2; 3] payload)
  = if len payload =? 6 then Ok (uint8Obs [2; 3] payload)
    else Err (errorString "incorrect byte list size").
Proof.
  rewrite decodeUint8Obs_shaped.
  - change (len [2; 3] =? 0) with false.
    change (int_wrap (shape_product [2; 3])) with 6.
    rewrite (Z.eqb_sym 6). reflexivity.
  - reflexivity.
  - repeat constructor; unfold is_uint32; lia.
Qed.

(** A dimension count of 0 fails whatever follows it. *)
Lemma decodeUint8Obs_zero_dims (rest : list byte) :
  decodeUint8Obs (PutUint32 0 ++ rest)
  = Err (errorString "byte list has 0 dimensions").
Proof.
  unfold decodeUint8Obs. io_unfold. rewrite binary_Read_uint32_app.
  reflexivity.
Qed.

(** C2, at the input where the code departs from it: four dimensions of
    size 65536 and no payload bytes.  The product of the declared sizes is
    2^64, not 0, yet the decoder succeeds, because the running product
    wraps around to 0 in [int] arithmetic. *)
Theorem decodeUint8Obs_accepts_overflowed_shape :
  decodeUint8Obs (shaped_payload overflow_dims [])
  = Ok (uint8Obs overflow_dims [])
  ∧ shape_product overflow_dims = 2 ^ 64
  ∧ shape_product overflow_dims ≠ len (@nil byte).
Proof.
  split; [|split].
  - vm_compute. reflexivity.
  - reflexivity.
  - vm_compute. discriminate.
Qed.

(** ** Writing to and reading from a connection *)

Lemma byte_of_Z_congr (a b : Z) :
  a mod 256 = b mod 256 → byte_of_Z a = byte_of_Z b.
Proof.
  intros H. rewrite <- (byte_of_Z_mod a), H. apply byte_of_Z_mod.
Qed.

(** [PutUint32] stores the low 32 bits only. *)
Lemma PutUint32_uint32 (v : Z) : PutUint32 (uint32 v) = PutUint32 v.
Proof.
  unfold PutUint32, uint32. rewrite !Z.shiftr_div_pow2 by lia.
  change (2 ^ 8) with 256. change (2 ^ 16) with 65536.
  change (2 ^ 24) with 16777216. change (2 ^ 32) with 4294967296.
  rewrite (byte_of_Z_congr (v `mod` 4294967296) v),
    (byte_of_Z_congr ((v `mod` 4294967296) `div` 256) (v `div` 256)),
    (byte_of_Z_congr ((v `mod` 4294967296) `div` 65536) (v `div` 65536)),
    (byte_of_Z_congr ((v `mod` 4294967296) `div` 16777216) (v `div` 16777216))
    by (Z.div_mod_to_equations; lia).
  reflexivity.
Qed.

Lemma reads_as_ByteField (b : list byte) :
  len b < 2 ^ 32 → reads_as readByteField (ByteField b) b.
Proof.
  intros Hb rest. unfold ByteField. rewrite <- app_assoc.
  apply readByteField_app. pose proof (len_nonneg b).
  apply Z.mod_small. lia.
Qed.

Lemma io_Write_run (cn : net_Conn) (wb p : list byte) :
  io_Write p (mkRW cn wb None) = (Ok tt, mkRW cn (wb ++ p) None).
Proof. reflexivity. Qed.

Lemma writePacketType_run (cn : net_Conn) (wb : list byte) (t : Z) :
  writePacketType t (mkRW cn wb None)
  = (Ok tt, mkRW cn (wb ++ [byte_of_Z t]) None).
Proof. reflexivity. Qed.

Lemma writeBool_run (cn : net_Conn) (wb : list byte) (b : bool) :
  writeBool b (mkRW cn wb None) = (Ok tt, mkRW cn (wb ++ [bool_byte b]) None).
Proof. destruct b; reflexivity. Qed.

Lemma writeByteField_run (cn : net_Conn) (wb b : list byte) :
  writeByteField b (mkRW cn wb None)
  = (Ok tt, mkRW cn (wb ++ ByteField b) None).
Proof.
  unfold writeByteField, binary_Write_uint32. io_unfold.
  rewrite PutUint32_uint32, io_Write_run. cbv beta iota.
  rewrite io_Write_run. unfold ByteField.
  rewrite <- app_assoc. reflexivity.
Qed.

Lemma bufio_Flush_run (inc snt wb : list byte) :
  bufio_Flush (mkRW (mkConn inc snt None false) wb None)
  = (Ok tt, mkRW (mkConn inc (snt ++ wb) None false) [] None).
Proof.
  unfold bufio_Flush, conn_Write. destruct wb as [|b wb].
  - cbn. rewrite app_nil_r. reflexivity.
  - reflexivity.
Qed.

(** A failing transport makes [Flush] fail with the transport's error. *)
Lemma bufio_Flush_fault (inc snt wb : list byte) (e : error) :
  wb ≠ [] →
  bufio_Flush (mkRW (mkConn inc snt (Some e) false) wb None)
  = (Err e, mkRW (mkConn inc snt (Some e) false) wb (Some e)).
Proof.
  intros H. destruct wb; [contradiction|]. reflexivity.
Qed.

Lemma lifts_ReadFull (n : nat) : lifts (io_ReadFull n) (io_ReadFull n).
Proof.
  intros [[inc snt flt cl] wb we] Hc. simpl in Hc. subst cl.
  unfold io_ReadFull, ReadWriter_Reader, bytes_Reader, bufio_ReadFull,
    conn_ReadFull, lift_read. cbn.
  destruct (bytes_ReadFull n inc). reflexivity.
Qed.

Lemma lifts_ret {A} (a : A) : lifts (ret a) (ret a).
Proof. intros [[inc snt flt cl] wb we] _. reflexivity. Qed.

Lemma lifts_fail {A} (e : error) : lifts (fail (A:=A) e) (fail e).
Proof. intros [[inc snt flt cl] wb we] _. reflexivity. Qed.

Lemma lifts_lift_result {A} (r : result A) : lifts (lift_result r) (lift_result r).
Proof. intros [[inc snt flt cl] wb we] _. reflexivity. Qed.

Lemma lifts_bind {A B} (mc : IO ReadWriter A) (mb : IO (list byte) A)
    (kc : A → IO ReadWriter B) (kb : A → IO (list byte) B) :
  lifts mc mb → (∀ a, lifts (kc a) (kb a)) → lifts (mc ≫= kc) (mb ≫= kb).
Proof.
  intros Hm Hk c Hc. io_unfold. rewrite (Hm c Hc). unfold lift_read.
  destruct (mb (incoming (conn c))) as [[a|e] s1]; [|reflexivity].
  rewrite (Hk a) by (destruct c as [[? ? ? ?] ? ?]; exact Hc).
  unfold lift_read. destruct c as [[inc snt flt cl] wb we]. cbn.
  destruct (kb a s1). reflexivity.
Qed.

Lemma lifts_if {A} (b : bool) (m1 m2 : IO ReadWriter A)
    (n1 n2 : IO (list byte) A) :
  lifts m1 n1 → lifts m2 n2 →
  lifts (if b then m1 else m2) (if b then n1 else n2).
Proof. destruct b; auto. Qed.

Create HintDb lifts.
#[export] Hint Resolve lifts_ReadFull lifts_ret lifts_fail lifts_lift_result
  lifts_if : lifts.

Ltac lifts_tac :=
  repeat first
    [ apply lifts_bind; [|intros ?]
    | apply lifts_if
    | apply lifts_ReadFull | apply lifts_ret | apply lifts_fail
    | apply lifts_lift_result
    | match goal with |- lifts (mret ?a) _ => apply (lifts_ret a) end
    | solve [eauto with lifts] ].

Lemma lifts_binary_Read_uint8 : lifts binary_Read_uint8 binary_Read_uint8.
Proof. unfold binary_Read_uint8. lifts_tac. Qed.

Lemma lifts_binary_Read_uint32 : lifts binary_Read_uint32 binary_Read_uint32.
Proof. unfold binary_Read_uint32. lifts_tac. Qed.

Lemma lifts_readByteField : lifts readByteField readByteField.
Proof.
  unfold readByteField. apply lifts_bind; [apply lifts_binary_Read_uint32|].
  intros n. lifts_tac.
Qed.

Lemma lifts_readErrorField : lifts readErrorField readErrorField.
Proof.
  unfold readErrorField. apply lifts_bind; [apply lifts_readByteField|].
  intros b. lifts_tac.
Qed.

Lemma lifts_readReward : lifts readReward readReward.
Proof. unfold readReward, binary_Read_float64. lifts_tac. Qed.

Lemma lifts_readBool : lifts readBool readBool.
Proof.
  unfold readBool. apply lifts_bind; [apply lifts_binary_Read_uint8|].
  intros b. lifts_tac.
Qed.

Lemma lifts_readObservation : lifts readObservation readObservation.
Proof.
  unfold readObservation. apply lifts_bind; [apply lifts_binary_Read_uint8|].
  intros t. apply lifts_bind; [apply lifts_readByteField|].
  intros d. lifts_tac.
Qed.

Lemma lifts_readAction `{!JSON} : lifts readAction readAction.
Proof.
  unfold readAction. apply lifts_bind; [apply lifts_binary_Read_uint8|].
  intros t. apply lifts_if; [lifts_tac|].
  apply lifts_bind; [apply lifts_readByteField|]. intros d. lifts_tac.
Qed.

(** ** Encodings of the response fields *)

Lemma binary_Read_uint8_cons (b : byte) (rest : list byte) :
  binary_Read_uint8 (b :: rest) = (Ok (byte_to_Z b), rest).
Proof. reflexivity. Qed.

Lemma binary_Read_uint8_inv (s s' : list byte) (v : Z) :
  binary_Read_uint8 s = (Ok v, s') → ∃ b, s = b :: s' ∧ v = byte_to_Z b.
Proof.
  unfold binary_Read_uint8. io_unfold.
  destruct (io_ReadFull 1 s) as [[bs|e] s1] eqn:E; [|discriminate].
  intros [= <- <-]. apply bytes_ReadFull_inv in E as [-> Hl].
  destruct bs as [|b [|]]; try discriminate. exists b. auto.
Qed.

Lemma byte_to_Z_inj (a b : byte) : byte_to_Z a = byte_to_Z b → a = b.
Proof.
  intros H. rewrite <- (byte_of_to_Z a), H. apply byte_of_to_Z.
Qed.

Lemma reads_as_readBool (d : bool) : reads_as readBool [bool_byte d] d.
Proof. intros rest. destruct d; reflexivity. Qed.

Lemma readBool_inv (s s' : list byte) (d : bool) :
  readBool s = (Ok d, s') → s = [bool_byte d] ++ s'.
Proof.
  unfold readBool. io_unfold.
  destruct (binary_Read_uint8 s) as [[v|e] s1] eqn:E; [|discriminate].
  apply binary_Read_uint8_inv in E as (b & -> & ->).
  destruct (Z.eqb_spec (byte_to_Z b) 0) as [H0|H0].
  - cbn. intros [= <- <-]. f_equal. apply byte_to_Z_inj. exact H0.
  - destruct (Z.eqb_spec (byte_to_Z b) 1) as [H1|H1]; [|discriminate].
    cbn. intros [= <- <-]. f_equal. apply byte_to_Z_inj. exact H1.
Qed.

Lemma reads_as_readReward (rb : list byte) :
  length rb = 8%nat → reads_as readReward rb (Float64frombits (Uint64 rb)).
Proof.
  intros Hl rest. unfold readReward, binary_Read_float64. io_unfold.
  rewrite (bytes_ReadFull_app 8 rb rest) by (symmetry; exact Hl).
  reflexivity.
Qed.

Lemma readReward_inv (s s' : list byte) (rw : float64) :
  readReward s = (Ok rw, s') →
  ∃ rb, s = rb ++ s' ∧ length rb = 8%nat ∧ rw = Float64frombits (Uint64 rb).
Proof.
  unfold readReward, binary_Read_float64. io_unfold.
  destruct (io_ReadFull 8 s) as [[bs|e] s1] eqn:E; [|discriminate].
  intros [= <- <-]. apply bytes_ReadFull_inv in E as [-> Hl].
  exists bs. auto.
Qed.

(** The observation is a type byte and a ByteField; whether it decodes
    depends on these bytes alone. *)
Lemma readObservation_cons (t : byte) (data rest : list byte) :
  len data < 2 ^ 32 →
  readObservation (t :: ByteField data ++ rest)
  = (fst (readObservation (t :: ByteField data)), rest).
Proof.
  intros Hd. unfold readObservation. io_unfold.
  rewrite !binary_Read_uint8_cons.
  rewrite (reads_as_ByteField data Hd rest).
  rewrite <- (app_nil_r (ByteField data)).
  rewrite (reads_as_ByteField data Hd []).
  destruct (byte_to_Z t =? observationJSON); [reflexivity|].
  destruct (byte_to_Z t =? observationByteList); reflexivity.
Qed.

Lemma readObservation_inv (s s' : list byte) (o : Obs) :
  readObservation s = (Ok o, s') →
  ∃ ob, s = ob ++ s' ∧ reads_as readObservation ob o.
Proof.
  intros H. pose proof H as H'. revert H'.
  unfold readObservation at 1. io_unfold.
  destruct (binary_Read_uint8 s) as [[v|e] s1] eqn:E; [|discriminate].
  apply binary_Read_uint8_inv in E as (t & -> & ->).
  destruct (readByteField s1) as [[data|e] s2] eqn:E; [|discriminate].
  apply readByteField_inv in E as [-> Hd]. fold (ByteField data).
  intros Hs2.
  assert (s2 = s') as ->.
  { destruct (byte_to_Z t =? observationJSON); [congruence|].
    destruct (byte_to_Z t =? observationByteList);
      unfold lift_result in Hs2; congruence. }
  exists (t :: ByteField data). split.
  - unfold ByteField. cbn [app]. rewrite <- app_assoc. reflexivity.
  - intros rest. cbn [app]. rewrite readObservation_cons by exact Hd.
    rewrite app_assoc in H. fold (ByteField data) in H.
    rewrite readObservation_cons in H by exact Hd.
    injection H as H. rewrite H. reflexivity.
Qed.

(** A lifted reader on an open connection. *)
Lemma lifts_run {A} (mc : IO ReadWriter A) (mb : IO (list byte) A)
    (inc snt : list byte) (flt : option error) (wb : list byte)
    (we : option error) :
  lifts mc mb →
  mc (mkRW (mkConn inc snt flt false) wb we)
  = match mb inc with
    | (r, s') => (r, mkRW (mkConn s' snt flt false) wb we)
    end.
Proof. intros H. rewrite H by reflexivity. reflexivity. Qed.

(** ** Step *)

Section StepProperties.
Context `{!JSON}.

(** [Step] on a healthy connection whose peer answers with the four
    fields in order. *)
Lemma Step_run (action : Value) (js : list byte) (c : connEnv)
    (ob rb ib rest : list byte) (o : Obs) (d : bool) :
  healthy c → json_Marshal action = Ok js →
  incoming (conn c) = Step_response ob rb d ib ++ rest →
  reads_as readObservation ob o → length rb = 8%nat → len ib < 2 ^ 32 →
  Step action c
  = (match json_Unmarshal ib with
     | Ok i => mkStep (Some o) (Float64frombits (Uint64 rb)) d (Some i) None
     | Err e => mkStep (Some o) (Float64frombits (Uint64 rb)) d None
                       (Some (CtxError "step environment" e))
     end,
     exchanged c (Step_request js) rest).
Proof.
  intros (Hcl & Hfl & Hwe) Hjs Hinc Hob Hrb Hib.
  destruct c as [[inc snt flt cl] wb we]. cbn in Hcl, Hfl, Hwe, Hinc.
  subst cl flt we inc. unfold Step, Step_response, exchanged.
  rewrite writePacketType_run.
  unfold writeAction. io_unfold. unfold lift_result. rewrite Hjs.
  rewrite io_Write_run, writeByteField_run, bufio_Flush_run.
  rewrite (lifts_run _ _ _ _ _ _ _ lifts_readObservation).
  rewrite <- !app_assoc. rewrite (Hob _).
  rewrite (lifts_run _ _ _ _ _ _ _ lifts_readReward).
  rewrite (reads_as_readReward rb Hrb _).
  rewrite (lifts_run _ _ _ _ _ _ _ lifts_readBool).
  change (bool_byte d :: ByteField ib ++ rest)
    with ([bool_byte d] ++ ByteField ib ++ rest).
  rewrite (reads_as_readBool d _).
  rewrite (lifts_run _ _ _ _ _ _ _ lifts_readByteField).
  rewrite (reads_as_ByteField ib Hib rest).
  unfold Step_request. cbn [conn sent wbuf].
  destruct (json_Unmarshal ib); reflexivity.
Qed.

(** Every path of [Step] that ends without an error has read all four
    fields, one after the other. *)
Lemma Step_ok_inv (action : Value) (js : list byte) (c c' : connEnv)
    (r : StepResults) :
  healthy c → json_Marshal action = Ok js →
  Step action c = (r, c') → err r = None →
  ∃ ob rb ib rest o d i,
    incoming (conn c) = Step_response ob rb d ib ++ rest
    ∧ reads_as readObservation ob o
    ∧ length rb = 8%nat
    ∧ len ib < 2 ^ 32
    ∧ json_Unmarshal ib = Ok i
    ∧ r = mkStep (Some o) (Float64frombits (Uint64 rb)) d (Some i) None
    ∧ c' = exchanged c (Step_request js) rest.
Proof.
  intros (Hcl & Hfl & Hwe) Hjs HS Herr.
  destruct c as [[inc snt flt cl] wb we]. cbn in Hcl, Hfl, Hwe.
  subst cl flt we. revert HS. unfold Step.
  rewrite writePacketType_run.
  unfold writeAction. io_unfold. unfold lift_result. rewrite Hjs.
  rewrite io_Write_run, writeByteField_run, bufio_Flush_run.
  rewrite (lifts_run _ _ _ _ _ _ _ lifts_readObservation).
  destruct (readObservation inc) as [[o|e] s1] eqn:E1;
    [|intros [= <- <-]; discriminate Herr].
  rewrite (lifts_run _ _ _ _ _ _ _ lifts_readReward).
  destruct (readReward s1) as [[rw|e] s2] eqn:E2;
    [|intros [= <- <-]; discriminate Herr].
  rewrite (lifts_run _ _ _ _ _ _ _ lifts_readBool).
  destruct (readBool s2) as [[d|e] s3] eqn:E3;
    [|intros [= <- <-]; discriminate Herr].
  rewrite (lifts_run _ _ _ _ _ _ _ lifts_readByteField).
  destruct (readByteField s3) as [[ib|e] s4] eqn:E4;
    [|intros [= <- <-]; discriminate Herr].
  destruct (json_Unmarshal ib) as [i|e] eqn:E5;
    [|intros [= <- <-]; discriminate Herr].
  intros [= <- <-].
  apply readObservation_inv in E1 as (ob & -> & Hob).
  apply readReward_inv in E2 as (rb & -> & Hrb & ->).
  apply readBool_inv in E3 as ->.
  apply readByteField_inv in E4 as [-> Hib].
  exists ob, rb, ib, s4, o, d, i. repeat split; try assumption.
  - unfold Step_response, ByteField. rewrite <- !app_assoc. reflexivity.
  - unfold exchanged, Step_request. cbn [conn sent wbuf].
    rewrite <- !app_assoc. reflexivity.
Qed.

(** C3: [Step] reads the response as Observation, then the 8-byte reward,
    then the done flag, then the info ByteField parsed as JSON.  On a
    healthy connection it returns without error exactly when the incoming
    bytes are these four fields in this order; its results are then the
    four decoded values, and all four fields, no more, are consumed. *)
Theorem Step_reads_fields_in_order (action : Value) (js : list byte)
    (c c' : connEnv) (r : StepResults) :
  healthy c → json_Marshal action = Ok js →
  Step action c = (r, c') ∧ err r = None
  ↔ ∃ ob rb ib rest o d i,
      incoming (conn c) = Step_response ob rb d ib ++ rest
      ∧ reads_as readObservation ob o
      ∧ length rb = 8%nat
      ∧ len ib < 2 ^ 32
      ∧ json_Unmarshal ib = Ok i
      ∧ r = mkStep (Some o) (Float64frombits (Uint64 rb)) d (Some i) None
      ∧ c' = exchanged c (Step_request js) rest.
Proof.
  intros Hc Hjs. split.
  - intros [HS Herr]. eapply Step_ok_inv; eassumption.
  - intros (ob & rb & ib & rest & o & d & i
            & Hinc & Hob & Hrb & Hib & Hi & -> & ->).
    rewrite (Step_run action js c ob rb ib rest o d) by assumption.
    rewrite Hi. split; reflexivity.
Qed.

(** C10: when the info ByteField of a response has length zero, [Step]
    returns an error and no info value, although observation, reward and
    done flag were decoded: [readByteField] yields no bytes, and the JSON
    decoder rejects the empty input. *)
Theorem Step_empty_info_is_error (action : Value) (js : list byte)
    (c : connEnv) (ob rb rest : list byte) (o : Obs) (d : bool) (e : error) :
  healthy c → json_Marshal action = Ok js →
  json_Unmarshal [] = Err e →
  incoming (conn c) = ob ++ rb ++ [bool_byte d] ++ PutUint32 0 ++ rest →
  reads_as readObservation ob o → length rb = 8%nat →
  readByteField (PutUint32 0 ++ rest) = (Ok [], rest)
  ∧ Step action c
    = (mkStep (Some o) (Float64frombits (Uint64 rb)) d None
              (Some (CtxError "step environment" e)),
       exchanged c (Step_request js) rest).
Proof.
  intros Hc Hjs He Hinc Hob Hrb. split.
  - apply (readByteField_app 0 [] rest). reflexivity.
  - rewrite (Step_run action js c ob rb [] rest o d); try assumption.
    + rewrite He. reflexivity.
    + rewrite Hinc. unfold Step_response, ByteField.
      rewrite <- !app_assoc. reflexivity.
    + reflexivity.
Qed.
End StepProperties.

Lemma reads_as_readObservation (t : byte) (data : list byte) (o : Obs) :
  len data < 2 ^ 32 →
  fst (readObservation (t :: ByteField data)) = Ok o →
  reads_as readObservation (t :: ByteField data) o.
Proof.
  intros Hd Ho rest. cbn [app]. rewrite readObservation_cons by exact Hd.
  rewrite Ho. reflexivity.
Qed.

Lemma Step_reads_fields_in_order_witness :
  @Step demo_JSON demo_action
    (idle (Step_response demo_obs demo_reward true demo_info ++ []))
  = (demo_results,
     exchanged (idle (Step_response demo_obs demo_reward true demo_info ++ []))
       (Step_request demo_action) [])
  ∧ @err demo_JSON demo_results = None.
Proof.
  apply (@Step_reads_fields_in_order demo_JSON demo_action demo_action).
  - repeat split.
  - reflexivity.
  - exists demo_obs, demo_reward, demo_info, [],
      (jsonObs (list_byte_of_string "[0.5,0.1]")), true, demo_info.
    split; [reflexivity|]. split.
    { apply reads_as_readObservation; [vm_compute|]; reflexivity. }
    repeat split.
Defined.

Lemma Step_empty_info_is_error_witness :
  readByteField (PutUint32 0 ++ []) = (Ok [], [])
  ∧ @Step demo_JSON demo_action
      (idle (demo_obs ++ demo_reward ++ [bool_byte false] ++ PutUint32 0 ++ []))
    = (@mkStep demo_JSON
         (Some (jsonObs (list_byte_of_string "[0.5,0.1]")))
         (Float64frombits (Uint64 demo_reward)) false None
         (Some (CtxError "step environment"
                  (libError "json" "unexpected end of JSON input"))),
       exchanged
         (idle (demo_obs ++ demo_reward ++ [bool_byte false] ++ PutUint32 0 ++ []))
         (Step_request demo_action) []).
Proof.
  apply (@Step_empty_info_is_error demo_JSON demo_action demo_action _
           demo_obs demo_reward [] _ false).
  - repeat split.
  - reflexivity.
  - reflexivity.
  - reflexivity.
  - apply reads_as_readObservation; [vm_compute|]; reflexivity.
  - reflexivity.
Defined.

(** ** essentials.AddCtxTo, deferred and not *)

(** Called on entry, the annotation has nothing to annotate: the method is
    its body. *)
Lemma AddCtxTo_on_entry_body {S A} (ctx : string) (body : IO S A) (s : S) :
  AddCtxTo_on_entry ctx body s = body s.
Proof.
  unfold AddCtxTo_on_entry. destruct (body s) as [[a|e] s']; reflexivity.
Qed.

(** Deferred, it wraps whatever error the body returns. *)
Lemma defer_AddCtxTo_inv {S A} (ctx : string) (body : IO S A) (s s' : S)
    (e : error) :
  defer_AddCtxTo ctx body s = (Err e, s') →
  ∃ e0, e = CtxError ctx e0 ∧ body s = (Err e0, s').
Proof.
  unfold defer_AddCtxTo. destruct (body s) as [[a|e0] s1]; [discriminate|].
  cbn. intros [= <- <-]. eauto.
Qed.

(** ** C4: Monitor *)

Section MonitorProperties.
Context `{!Platform}.

(** C4: on a healthy connection, and with [absDir] the absolute path that
    [filepath.Abs] gives for [dir], [Monitor(dir, force, resume, video)]
    puts on the wire, after whatever was written before, the Monitor packet
    type, the booleans in the order resume, force, video, and the ByteField
    of [absDir]; all of it is flushed before the ErrorField is read. *)
Theorem Monitor_wire_order (dir absDir : string) (force resume video : bool)
    (c : connEnv) :
  healthy c → filepath_Abs dir = Ok absDir →
  Monitor dir force resume video c
  = request_then_ErrorField c (Monitor_request resume force video absDir)
  ∧ Monitor_request resume force video absDir
    = [x04; bool_byte resume; bool_byte force; bool_byte video]
      ++ PutUint32 (len (list_byte_of_string absDir))
      ++ list_byte_of_string absDir.
Proof.
  intros (Hcl & Hfl & Hwe) Habs. split; [|reflexivity].
  destruct c as [[inc snt flt cl] wb we]. cbn in Hcl, Hfl, Hwe.
  subst cl flt we. unfold Monitor. rewrite AddCtxTo_on_entry_body.
  cbn [for_range]. io_unfold. unfold lift_result.
  rewrite writePacketType_run, !writeBool_run, Habs.
  rewrite writeByteField_run, bufio_Flush_run.
  rewrite (lifts_run _ _ _ _ _ _ _ lifts_readByteField).
  unfold request_then_ErrorField, exchanged, Monitor_request.
  cbn [conn incoming sent wbuf]. unfold readErrorField. io_unfold.
  rewrite <- !app_assoc.
  destruct (readByteField inc) as [[errData|e] s1]; [|reflexivity].
  destruct (0 <? len errData); reflexivity.
Qed.
End MonitorProperties.

(** [Monitor(dir="/tmp/x", force=true, resume=false, video=true)] *)
Lemma Monitor_wire_order_witness :
  @Monitor demo_Platform "/tmp/x" true false true (idle (ByteField []))
  = request_then_ErrorField (idle (ByteField []))
      (Monitor_request false true true "/tmp/x")
  ∧ Monitor_request false true true "/tmp/x"
    = [x04; x00; x01; x01]
      ++ PutUint32 (len (list_byte_of_string "/tmp/x"))
      ++ list_byte_of_string "/tmp/x".
Proof.
  apply (@Monitor_wire_order demo_Platform "/tmp/x" "/tmp/x" true false true).
  - repeat split.
  - reflexivity.
Defined.

(** An ErrorField: empty for success, otherwise the message. *)
Lemma readErrorField_app (msg rest : list byte) :
  len msg < 2 ^ 32 →
  readErrorField (ByteField msg ++ rest)
  = (match msg with
     | [] => Ok tt
     | _ => Err (errorString (string_of_list_byte msg))
     end, rest).
Proof.
  intros Hm. unfold readErrorField. io_unfold.
  rewrite (reads_as_ByteField msg Hm rest).
  destruct msg; reflexivity.
Qed.

(** ** C7: configure and wrap calls *)

Section ConfigureProperties.
Context `{!JSON}.

Lemma Configure_run (packet : Z) (js inc snt wb : list byte) :
  (writePacketType packet ;;
   jsonData ← lift_result (Ok js) ;
   writeByteField jsonData ;;
   bufio_Flush ;;
   readErrorField) (mkRW (mkConn inc snt None false) wb None)
  = request_then_ErrorField (mkRW (mkConn inc snt None false) wb None)
      (Configure_request packet js).
Proof.
  io_unfold. unfold lift_result.
  rewrite writePacketType_run, writeByteField_run, bufio_Flush_run.
  rewrite (lifts_run _ _ _ _ _ _ _ lifts_readErrorField).
  unfold request_then_ErrorField, exchanged, Configure_request.
  cbn [conn incoming sent wbuf]. rewrite <- !app_assoc. reflexivity.
Qed.

Lemma Wrap_run (packet : Z) (wrapper : string) (js inc snt wb : list byte) :
  (writePacketType packet ;;
   writeByteField (list_byte_of_string wrapper) ;;
   jsonData ← lift_result (Ok js) ;
   writeByteField jsonData ;;
   bufio_Flush ;;
   readErrorField) (mkRW (mkConn inc snt None false) wb None)
  = request_then_ErrorField (mkRW (mkConn inc snt None false) wb None)
      (Wrap_request packet wrapper js).
Proof.
  io_unfold. unfold lift_result.
  rewrite writePacketType_run, !writeByteField_run, bufio_Flush_run.
  rewrite (lifts_run _ _ _ _ _ _ _ lifts_readErrorField).
  unfold request_then_ErrorField, exchanged, Wrap_request.
  cbn [conn incoming sent wbuf]. rewrite <- !app_assoc. reflexivity.
Qed.

(** C7: on a healthy connection each of the four calls writes its packet
    type (7, 8, 9, 10), for the wrap calls the ByteField of the wrapper
    name, and always the ByteField of the JSON encoding of the options,
    where a nil map is replaced by the empty map before it is encoded; it
    then flushes and reads an ErrorField: when the server answers with the
    ErrorField of [msg], the call consumes exactly that field and returns
    nil for an empty [msg] and the error with text [msg] otherwise. *)
Theorem Configure_and_Wrap_requests (options : option (gmap string Value))
    (wrapper : string) (js msg rest : list byte) (c : connEnv) :
  healthy c →
  json_Marshal (ofMap (match options with
                       | None => Some ∅
                       | Some m => Some m
                       end)) = Ok js →
  incoming (conn c) = ByteField msg ++ rest → len msg < 2 ^ 32 →
  UniverseConfigure options c
  = (ErrorField_result msg, exchanged c ([x07] ++ ByteField js) rest)
  ∧ UniverseWrap wrapper options c
    = (ErrorField_result msg,
       exchanged c
         ([x08] ++ ByteField (list_byte_of_string wrapper) ++ ByteField js)
         rest)
  ∧ RetroConfigure options c
    = (ErrorField_result msg, exchanged c ([x09] ++ ByteField js) rest)
  ∧ RetroWrap wrapper options c
    = (ErrorField_result msg,
       exchanged c
         ([x0a] ++ ByteField (list_byte_of_string wrapper) ++ ByteField js)
         rest).
Proof.
  intros (Hcl & Hfl & Hwe) Hjs Hinc Hm.
  destruct c as [[inc snt flt cl] wb we].
  cbn [conn incoming closed fault werr] in Hcl, Hfl, Hwe, Hinc.
  subst cl flt we inc.
  unfold UniverseConfigure, UniverseWrap, RetroConfigure, RetroWrap.
  rewrite !AddCtxTo_on_entry_body. unfold options_or_empty. rewrite Hjs.
  rewrite !Configure_run, !Wrap_run.
  unfold request_then_ErrorField. cbn [conn incoming].
  rewrite (readErrorField_app msg rest Hm).
  unfold ErrorField_result. destruct msg; repeat split.
Qed.
End ConfigureProperties.

Lemma Configure_and_Wrap_requests_witness :
  @UniverseConfigure demo_JSON None
    (idle (ByteField (list_byte_of_string "bad wrapper") ++ [x2a]))
  = (Err (errorString "bad wrapper"),
     exchanged (idle (ByteField (list_byte_of_string "bad wrapper") ++ [x2a]))
       ([x07] ++ ByteField (list_byte_of_string "{}")) [x2a])
  ∧ @UniverseWrap demo_JSON "Vision" None
      (idle (ByteField (list_byte_of_string "bad wrapper") ++ [x2a]))
    = (Err (errorString "bad wrapper"),
       exchanged (idle (ByteField (list_byte_of_string "bad wrapper") ++ [x2a]))
         ([x08] ++ ByteField (list_byte_of_string "Vision")
          ++ ByteField (list_byte_of_string "{}")) [x2a])
  ∧ @RetroConfigure demo_JSON None
      (idle (ByteField (list_byte_of_string "bad wrapper") ++ [x2a]))
    = (Err (errorString "bad wrapper"),
       exchanged (idle (ByteField (list_byte_of_string "bad wrapper") ++ [x2a]))
         ([x09] ++ ByteField (list_byte_of_string "{}")) [x2a])
  ∧ @RetroWrap demo_JSON "Vision" None
      (idle (ByteField (list_byte_of_string "bad wrapper") ++ [x2a]))
    = (Err (errorString "bad wrapper"),
       exchanged (idle (ByteField (list_byte_of_string "bad wrapper") ++ [x2a]))
         ([x0a] ++ ByteField (list_byte_of_string "Vision")
          ++ ByteField (list_byte_of_string "{}")) [x2a]).
Proof.
  apply (@Configure_and_Wrap_requests demo_JSON None "Vision"
           (list_byte_of_string "{}") (list_byte_of_string "bad wrapper") [x2a]).
  - repeat split.
  - vm_compute. reflexivity.
  - reflexivity.
  - vm_compute. reflexivity.
Defined.

(** ** C5 and C9: Make and the handshake *)

Lemma handshake_run (envName : string) (inc snt : list byte) :
  handshake envName (NewReadWriter (mkConn inc snt None false))
  = request_then_ErrorField (NewReadWriter (mkConn inc snt None false))
      ([x00] ++ ByteField (list_byte_of_string envName)).
Proof.
  unfold handshake, NewReadWriter, bufio_WriteByte. io_unfold.
  change (bufio_Write [x00] (mkRW (mkConn inc snt None false) [] None))
    with (io_Write [x00] (mkRW (mkConn inc snt None false) [] None)).
  rewrite io_Write_run, writeByteField_run, bufio_Flush_run.
  rewrite (lifts_run _ _ _ _ _ _ _ lifts_readErrorField).
  unfold request_then_ErrorField, exchanged.
  cbn [conn incoming sent wbuf app]. reflexivity.
Qed.

Section MakeProperties.
Context `{!Platform}.

(** C5: when the dialed connection is healthy and the server answers the
    handshake with the ErrorField of [msg], [Make] returns a handle on a
    healthy connection if [msg] is empty, and otherwise fails with an error
    whose text is the server's message after the context of [Make]. *)
Theorem Make_handshake (host envName : string) (cn : net_Conn)
    (msg rest : list byte) :
  net_Dial "tcp" host = Ok cn →
  closed cn = false → fault cn = None →
  incoming cn = ByteField msg ++ rest → len msg < 2 ^ 32 →
  (msg = [] →
   ∃ h, Make host envName = (Ok h, Some (conn h))
        ∧ healthy h ∧ wbuf h = [] ∧ incoming (conn h) = rest
        ∧ sent (conn h)
          = sent cn ++ [x00] ++ ByteField (list_byte_of_string envName))
  ∧ (msg ≠ [] →
     ∃ e cn', Make host envName = (Err e, Some cn')
              ∧ e = CtxError "make environment"
                      (errorString (string_of_list_byte msg))
              ∧ Error e = ("make environment: " ++ string_of_list_byte msg)%string).
Proof.
  intros Hdial Hcl Hfl Hinc Hm.
  destruct cn as [inc snt flt cl].
  cbn [closed fault incoming] in Hcl, Hfl, Hinc. subst cl flt inc.
  unfold Make. rewrite Hdial, handshake_run.
  unfold request_then_ErrorField, NewReadWriter. cbn [conn incoming].
  rewrite readErrorField_app by exact Hm. split.
  - intros ->. eexists. split; [reflexivity|].
    unfold exchanged. cbn. repeat split.
  - intros Hne. destruct msg as [|b msg]; [contradiction|].
    do 2 eexists. repeat split.
Qed.

(** C9: when the handshake fails, [Make] closes the connection it dialed
    and returns the error alone, without a handle. *)
Theorem Make_closes_on_handshake_error (host envName : string)
    (cn : net_Conn) (rw' : ReadWriter) (e : error) :
  net_Dial "tcp" host = Ok cn →
  handshake envName (NewReadWriter cn) = (Err e, rw') →
  ∃ cn', Make host envName = (Err (CtxError "make environment" e), Some cn')
         ∧ closed cn' = true
         ∧ incoming cn' = incoming (conn rw') ∧ sent cn' = sent (conn rw').
Proof.
  intros Hdial Hh. unfold Make. rewrite Hdial, Hh.
  eexists. split; [reflexivity|].
  unfold conn_Close. destruct (closed (conn rw')) eqn:E; cbn; auto.
Qed.
End MakeProperties.

Lemma Make_handshake_witness :
  (∃ h, @Make demo_Platform "gym:5001" "CartPole-v0" = (Ok h, Some (conn h))
        ∧ healthy h ∧ wbuf h = [] ∧ incoming (conn h) = []
        ∧ sent (conn h)
          = [] ++ [x00] ++ ByteField (list_byte_of_string "CartPole-v0"))
  ∧ (∃ e cn', @Make demo_Platform "other:5001" "CartPole-v0" = (Err e, Some cn')
              ∧ e = CtxError "make environment" (errorString "no such env")
              ∧ Error e = "make environment: no such env").
Proof.
  split.
  - apply (@Make_handshake demo_Platform "gym:5001" "CartPole-v0"
             (mkConn (ByteField []) [] None false) [] []);
      reflexivity.
  - apply (@Make_handshake demo_Platform "other:5001" "CartPole-v0"
             (mkConn (ByteField (list_byte_of_string "no such env")) [] None false)
             (list_byte_of_string "no such env") []);
      try reflexivity.
    discriminate.
Defined.

Lemma Make_closes_on_handshake_error_witness :
  ∃ cn', @Make demo_Platform "other:5001" "NoSuchEnv-v0"
         = (Err (CtxError "make environment" (errorString "no such env")),
            Some cn')
         ∧ closed cn' = true
         ∧ incoming cn' = []
         ∧ sent cn' = [x00] ++ ByteField (list_byte_of_string "NoSuchEnv-v0").
Proof.
  apply (@Make_closes_on_handshake_error demo_Platform "other:5001"
           "NoSuchEnv-v0"
           (mkConn (ByteField (list_byte_of_string "no such env")) [] None false)
           (mkRW (mkConn [] ([x00] ++ ByteField (list_byte_of_string "NoSuchEnv-v0"))
                         None false) [] None)).
  - reflexivity.
  - vm_compute. reflexivity.
Defined.

(** ** C6: the operation name on errors *)

Section ContextProperties.
Context `{!JSON} `{!Platform}.

(** [Reset], [Step] and [Make] defer the annotation: every error they
    return carries their operation name. *)
Lemma Reset_error_has_context (c c' : connEnv) (e : error) :
  Reset c = (Err e, c') → ∃ e0, e = CtxError "reset environment" e0.
Proof.
  unfold Reset. intros HR. apply defer_AddCtxTo_inv in HR as (e0 & -> & _).
  eauto.
Qed.

Lemma Step_error_has_context (action : Value) (c c' : connEnv)
    (r : StepResults) (e : error) :
  Step action c = (r, c') → err r = Some e →
  ∃ e0, e = CtxError "step environment" e0.
Proof.
  unfold Step.
  match goal with
  | |- (let '(_, _) := ?m in _) = _ → _ => destruct m as [r0 c0]
  end.
  intros [= <- <-]. cbn [err]. destruct (err r0); [|discriminate].
  cbn. intros [= <-]. eauto.
Qed.

Lemma Make_error_has_context (host envName : string) (e : error)
    (cn : option net_Conn) :
  Make host envName = (Err e, cn) → ∃ e0, e = CtxError "make environment" e0.
Proof.
  unfold Make. destruct (net_Dial "tcp" host) as [cn0|e0].
  - destruct (handshake envName (NewReadWriter cn0)) as [[[]|e1] rw'];
      [discriminate|].
    cbn. intros [= <- <-]. eauto.
  - cbn. intros [= <- <-]. eauto.
Qed.

(** The other methods call [AddCtxTo] on entry: they return the error of
    the failing step as it is.  Here the transport is broken and the flush
    fails. *)
Lemma getSpace_error_lacks_context (spaceID : Z) (inc snt wb : list byte)
    (e : error) :
  ∃ c', getSpace spaceID (mkRW (mkConn inc snt (Some e) false) wb None)
        = (Err e, c').
Proof.
  unfold getSpace. rewrite AddCtxTo_on_entry_body.
  unfold writeSpaceType. io_unfold. rewrite !writePacketType_run.
  rewrite bufio_Flush_fault by (destruct wb; discriminate). eauto.
Qed.

Lemma Monitor_error_lacks_context (dir absDir : string)
    (force resume video : bool) (inc snt wb : list byte) (e : error) :
  filepath_Abs dir = Ok absDir →
  ∃ c', Monitor dir force resume video
          (mkRW (mkConn inc snt (Some e) false) wb None)
        = (Err e, c').
Proof.
  intros Habs. unfold Monitor. rewrite AddCtxTo_on_entry_body.
  cbn [for_range]. io_unfold. unfold lift_result.
  rewrite writePacketType_run, !writeBool_run, Habs, writeByteField_run.
  rewrite bufio_Flush_fault by (destruct wb; discriminate). eauto.
Qed.

(** C6, at an input where the code departs from it: the server answers
    [SampleAction] with action type 1.  The codec error comes back as it
    is, without the operation name "sample action". *)
Theorem SampleAction_error_lacks_context (rest : list byte) :
  SampleAction (idle (x01 :: rest))
  = (Err (errorString "unsupported action type: 1"),
     exchanged (idle (x01 :: rest)) [x03] rest)
  ∧ Error (errorString "unsupported action type: 1")
    = "unsupported action type: 1"
  ∧ AddCtx "sample action" (Some (errorString "unsupported action type: 1"))
    ≠ Some (errorString "unsupported action type: 1").
Proof.
  split; [|split; [reflexivity|discriminate]].
  unfold SampleAction, idle. rewrite AddCtxTo_on_entry_body.
  io_unfold. rewrite writePacketType_run, bufio_Flush_run.
  rewrite (lifts_run _ _ _ _ _ _ _ lifts_readAction).
  reflexivity.
Qed.
End ContextProperties.

(** * Further properties of the codec *)

(** ** Booleans *)

(** X1: a boolean written by [writeBool] is one byte, and [readBool] reads
    it back, leaving what follows. *)
Theorem writeBool_readBool (b : bool) (rest : list byte) :
  ∃ s, writeBool b [] = (Ok tt, s)
       ∧ length s = 1%nat
       ∧ readBool (s ++ rest) = (Ok b, rest).
Proof.
  exists [bool_byte b]. destruct b; repeat split.
Qed.

Lemma byte_to_Z_neq (a b : byte) : a ≠ b → byte_to_Z a ≠ byte_to_Z b.
Proof. intros H E. apply H. apply byte_to_Z_inj. exact E. Qed.

(** X2: [readBool] rejects every byte other than 0 and 1, naming the byte,
    after having consumed it. *)
Theorem readBool_rejects_other_bytes (v : byte) (rest : list byte) :
  v ≠ x00 → v ≠ x01 →
  readBool (v :: rest)
  = (Err (errorString ("invalid bool: " ++ fmt_d (byte_to_Z v))%string), rest).
Proof.
  intros H0 H1. unfold readBool. io_unfold.
  rewrite binary_Read_uint8_cons.
  apply byte_to_Z_neq in H0, H1.
  change (byte_to_Z x00) with 0 in H0. change (byte_to_Z x01) with 1 in H1.
  destruct (Z.eqb_spec (byte_to_Z v) 0); [contradiction|].
  destruct (Z.eqb_spec (byte_to_Z v) 1); [contradiction|].
  reflexivity.
Qed.

Lemma readBool_rejects_other_bytes_witness :
  readBool [x02; x07] = (Err (errorString "invalid bool: 2"), [x07]).
Proof.
  apply (readBool_rejects_other_bytes x02 [x07]); discriminate.
Defined.

(** ** Byte fields *)

(** X3: [readByteField] succeeds on exactly the streams that start with a
    length word and that many bytes; it returns these bytes and leaves the
    rest, so a stream has at most one reading as a field. *)
Theorem readByteField_ok_iff (s s' b : list byte) :
  readByteField s = (Ok b, s') ↔ s = ByteField b ++ s' ∧ len b < 2 ^ 32.
Proof.
  split.
  - intros H. apply readByteField_inv in H as [-> Hb].
    unfold ByteField. rewrite <- app_assoc. auto.
  - intros [-> Hb]. apply reads_as_ByteField. exact Hb.
Qed.

(** X4: a stream that ends inside a field is an I/O error and is drained:
    inside the length word, or before the declared number of bytes.  The
    error is [io.EOF] when no byte of the part being read is there, and
    [io.ErrUnexpectedEOF] otherwise. *)
Theorem readByteField_truncated (n : Z) (short avail : list byte) :
  (length short < 4)%nat → 0 < n < 2 ^ 32 → len avail < n →
  readByteField short
  = (Err (match short with [] => io_EOF | _ => io_ErrUnexpectedEOF end), [])
  ∧ readByteField (PutUint32 n ++ avail)
    = (Err (match avail with [] => io_EOF | _ => io_ErrUnexpectedEOF end), []).
Proof.
  intros Hs Hn Ha. split.
  - unfold readByteField, binary_Read_uint32. io_unfold.
    unfold io_ReadFull, bytes_Reader, bytes_ReadFull.
    destruct (Nat.leb_spec 4 (length short)); [lia|]. reflexivity.
  - unfold readByteField. io_unfold.
    rewrite binary_Read_uint32_app, Z.mod_small by lia.
    destruct (Z.eqb_spec n 0); [lia|].
    unfold io_ReadFull, bytes_Reader, bytes_ReadFull.
    destruct (Nat.leb_spec (Z.to_nat n) (length avail)); [unfold len in Ha; lia|].
    reflexivity.
Qed.

Lemma readByteField_truncated_witness :
  readByteField [x05; x00]
  = (Err io_ErrUnexpectedEOF, [])
  ∧ readByteField (PutUint32 5 ++ [x61; x62])
    = (Err io_ErrUnexpectedEOF, []).
Proof.
  apply (readByteField_truncated 5 [x05; x00] [x61; x62]).
  - simpl. lia.
  - lia.
  - vm_compute. reflexivity.
Defined.

(** X5: an ErrorField is a success exactly when it is empty; otherwise
    [readErrorField] returns an error whose text is, byte for byte, the
    message of the field. *)
Theorem readErrorField_message (msg rest : list byte) :
  len msg < 2 ^ 32 →
  (msg = [] → readErrorField (ByteField msg ++ rest) = (Ok tt, rest))
  ∧ (msg ≠ [] →
     ∃ e, readErrorField (ByteField msg ++ rest) = (Err e, rest)
          ∧ list_byte_of_string (Error e) = msg).
Proof.
  intros Hm. rewrite readErrorField_app by exact Hm. split.
  - intros ->. reflexivity.
  - intros Hne. destruct msg as [|b msg]; [contradiction|].
    eexists. split; [reflexivity|].
    cbn [Error]. apply list_byte_of_string_of_list_byte.
Qed.

Lemma readErrorField_message_witness :
  (list_byte_of_string "no such env" = [] →
   readErrorField (ByteField (list_byte_of_string "no such env") ++ [x00])
   = (Ok tt, [x00]))
  ∧ (list_byte_of_string "no such env" ≠ [] →
     ∃ e, readErrorField (ByteField (list_byte_of_string "no such env") ++ [x00])
          = (Err e, [x00])
          ∧ list_byte_of_string (Error e) = list_byte_of_string "no such env").
Proof.
  apply (readErrorField_message (list_byte_of_string "no such env") [x00]).
  vm_compute. reflexivity.
Defined.

(** ** Observations *)

Lemma byte_to_Z_eq_iff (t b : byte) : byte_to_Z t = byte_to_Z b ↔ t = b.
Proof. split; [apply byte_to_Z_inj|intros ->; reflexivity]. Qed.

(** X6: [readObservation] succeeds on exactly the streams made of a type
    byte 0 or 1 and a ByteField, where for type 0 the field is returned as
    it is (it is not parsed as JSON) and for type 1 it has to decode as a
    shaped byte array. *)
Theorem readObservation_ok_iff (s s' : list byte) (o : Obs) :
  readObservation s = (Ok o, s')
  ↔ ∃ t data,
      s = t :: ByteField data ++ s' ∧ len data < 2 ^ 32
      ∧ ((t = x00 ∧ o = jsonObs data)
         ∨ (t = x01 ∧ decodeUint8Obs data = Ok o)).
Proof.
  split.
  - unfold readObservation. io_unfold.
    destruct (binary_Read_uint8 s) as [[v|e] s1] eqn:E; [|discriminate].
    apply binary_Read_uint8_inv in E as (t & -> & ->).
    destruct (readByteField s1) as [[data|e] s2] eqn:E; [|discriminate].
    apply readByteField_inv in E as [-> Hd].
    intros Hr. exists t, data.
    change observationJSON with (byte_to_Z x00) in Hr.
    change observationByteList with (byte_to_Z x01) in Hr.
    destruct (Z.eqb_spec (byte_to_Z t) (byte_to_Z x00)) as [E0|E0].
    + apply byte_to_Z_inj in E0. injection Hr as <- <-.
      unfold ByteField. rewrite <- app_assoc. auto.
    + destruct (Z.eqb_spec (byte_to_Z t) (byte_to_Z x01)) as [E1|E1];
        [|discriminate].
      apply byte_to_Z_inj in E1. unfold lift_result in Hr.
      injection Hr as Hr <-.
      unfold ByteField. rewrite <- app_assoc. auto.
  - intros (t & data & -> & Hd & Ht).
    rewrite readObservation_cons by exact Hd.
    unfold readObservation. io_unfold. rewrite binary_Read_uint8_cons.
    rewrite <- (app_nil_r (ByteField data)).
    rewrite (reads_as_ByteField data Hd []).
    destruct Ht as [[-> ->]|[-> Ho]].
    + reflexivity.
    + cbn. unfold lift_result. rewrite Ho. reflexivity.
Qed.

(** X7: an observation of unknown type is an error that names the type;
    its ByteField has been consumed all the same, so the stream stands
    after the observation. *)
Theorem readObservation_unknown_type (t : byte) (data rest : list byte) :
  t ≠ x00 → t ≠ x01 → len data < 2 ^ 32 →
  readObservation (t :: ByteField data ++ rest)
  = (Err (errorString
            ("unknown observation type: " ++ fmt_d (byte_to_Z t))%string),
     rest).
Proof.
  intros H0 H1 Hd. unfold readObservation. io_unfold.
  rewrite binary_Read_uint8_cons, (reads_as_ByteField data Hd rest).
  apply byte_to_Z_neq in H0, H1.
  change (byte_to_Z x00) with observationJSON in H0.
  change (byte_to_Z x01) with observationByteList in H1.
  destruct (Z.eqb_spec (byte_to_Z t) observationJSON); [contradiction|].
  destruct (Z.eqb_spec (byte_to_Z t) observationByteList); [contradiction|].
  reflexivity.
Qed.

Lemma readObservation_unknown_type_witness :
  readObservation (x02 :: ByteField [x61; x62] ++ [x09])
  = (Err (errorString "unknown observation type: 2"), [x09]).
Proof.
  apply (readObservation_unknown_type x02 [x61; x62] [x09]);
    [discriminate|discriminate|vm_compute; reflexivity].
Defined.

(** ** Shaped byte arrays, for every input *)

Lemma decodeUint8Obs_dims_inv (n : nat) (p prod : Z) (s s' : list byte)
    (ds : list Z) :
  decodeUint8Obs_dims n p s = (Ok (ds, prod), s') →
  length ds = n ∧ s = encode_dims ds ++ s' ∧ Forall is_uint32 ds
  ∧ prod = match ds with [] => p | _ => int_wrap (p * shape_product ds) end.
Proof.
  revert p prod s s' ds. induction n as [|n IH]; intros p prod s s' ds.
  - cbn. intros [= <- <- <-]. repeat split. constructor.
  - cbn [decodeUint8Obs_dims]. io_unfold.
    destruct (binary_Read_uint32 s) as [[d|e] s1] eqn:E; [|discriminate].
    apply binary_Read_uint32_inv in E as [-> Hd].
    destruct (decodeUint8Obs_dims n (int_mul p d) s1) as [[[ds1 p1]|e] s2] eqn:E;
      [|discriminate].
    cbn [fst snd]. intros [= <- <- <-].
    apply IH in E as (Hl & -> & Hds & Hp). repeat split.
    + cbn. rewrite Hl. reflexivity.
    + constructor; assumption.
    + rewrite Hp. unfold shape_product. cbn [fold_right].
      destruct ds1 as [|d1 ds1].
      * cbn [fold_right]. unfold int_mul. rewrite Z.mul_1_r. reflexivity.
      * unfold int_mul. rewrite int_wrap_mul_l, Z.mul_assoc. reflexivity.
Qed.

(** X8: whatever the input, a successful [decodeUint8Obs] returns a shaped
    array, never a JSON observation: the input is a count, that many
    dimensions and the values; the dimensions returned are the declared
    ones, at least one; the values returned are all the bytes after the
    header, none dropped or shared with the header; and their number is
    the product of the dimensions as an [int]. *)
Theorem decodeUint8Obs_ok_inv (data : list byte) (o : Obs) :
  decodeUint8Obs data = Ok o →
  ∃ ds vals,
    o = uint8Obs ds vals
    ∧ data = shaped_payload ds vals
    ∧ ds ≠ [] ∧ len ds < 2 ^ 32 ∧ Forall is_uint32 ds
    ∧ int_wrap (shape_product ds) = len vals.
Proof.
  unfold decodeUint8Obs. io_unfold.
  destruct (binary_Read_uint32 data) as [[n|e] s1] eqn:E; [|discriminate].
  apply binary_Read_uint32_inv in E as [-> Hn].
  destruct (Z.eqb_spec n 0) as [H0|H0]; [discriminate|].
  destruct (decodeUint8Obs_dims (Z.to_nat n) 1 s1) as [[[ds p]|e] s2] eqn:E;
    [|discriminate].
  apply decodeUint8Obs_dims_inv in E as (Hl & -> & Hds & Hp).
  cbn [fst snd]. unfold bytes_Len.
  destruct (Z.eqb_spec p (len s2)) as [Hp2|Hp2]; [|discriminate].
  cbn [negb fst]. intros [= <-].
  assert (len ds = n) as Hlen by (unfold len; lia).
  destruct ds as [|d ds]; [unfold len in Hlen; simpl in Hlen; lia|].
  rewrite Z.mul_1_l in Hp.
  exists (d :: ds), s2. repeat split.
  - match goal with
    | |- uint8Obs _ (drop _ ?l) = _ =>
        change l with (PutUint32 n ++ encode_dims (d :: ds) ++ s2)
    end.
    f_equal. rewrite Hp2, app_assoc, len_app.
    replace (Z.to_nat (_ + len s2 - len s2))
      with (length (PutUint32 n ++ encode_dims (d :: ds)))
      by (unfold len; lia).
    apply drop_app_length.
  - unfold shaped_payload. rewrite Hlen. reflexivity.
  - discriminate.
  - lia.
  - exact Hds.
  - congruence.
Qed.

Lemma decodeUint8Obs_dims_short (n : nat) (p : Z) (s : list byte) :
  (length s < 4 * n)%nat →
  ∃ e, decodeUint8Obs_dims n p s = (Err e, [])
       ∧ (e = io_EOF ∨ e = io_ErrUnexpectedEOF).
Proof.
  revert p s. induction n as [|n IH]; intros p s Hs; [lia|].
  cbn [decodeUint8Obs_dims]. io_unfold.
  unfold binary_Read_uint32 at 1. io_unfold.
  unfold io_ReadFull, bytes_Reader, bytes_ReadFull.
  destruct (Nat.leb_spec 4 (length s)) as [H4|H4].
  - destruct (IH (int_mul p (Uint32 (take 4 s))) (drop 4 s)) as (e & -> & He).
    { rewrite length_drop. lia. }
    eauto.
  - destruct s; eauto.
Qed.

(** X9: a shaped array whose header is cut short, inside the count or
    inside the dimensions it declares, fails with an end-of-input error.
    The count is taken to be at most 2^20: the slice for the dimensions is
    allocated before the first of them is read, and for such a count it
    takes at most 8 MiB. *)
Theorem decodeUint8Obs_truncated (n : Z) (short tail : list byte) :
  (length short < 4)%nat → 0 < n ≤ 2 ^ 20 → len tail < 4 * n →
  (∃ e, decodeUint8Obs short = Err e
        ∧ (e = io_EOF ∨ e = io_ErrUnexpectedEOF))
  ∧ (∃ e, decodeUint8Obs (PutUint32 n ++ tail) = Err e
          ∧ (e = io_EOF ∨ e = io_ErrUnexpectedEOF)).
Proof.
  intros Hs Hn Ht. split.
  - unfold decodeUint8Obs, binary_Read_uint32. io_unfold.
    unfold io_ReadFull, bytes_Reader, bytes_ReadFull.
    destruct (Nat.leb_spec 4 (length short)); [lia|].
    destruct short; eauto.
  - unfold decodeUint8Obs. io_unfold.
    rewrite binary_Read_uint32_app, Z.mod_small by lia.
    destruct (Z.eqb_spec n 0); [lia|].
    destruct (decodeUint8Obs_dims_short (Z.to_nat n) 1 tail) as (e & -> & He).
    { unfold len in Ht. lia. }
    eauto.
Qed.

Lemma decodeUint8Obs_truncated_witness :
  (∃ e, decodeUint8Obs [x02; x00] = Err e
        ∧ (e = io_EOF ∨ e = io_ErrUnexpectedEOF))
  ∧ (∃ e, decodeUint8Obs (PutUint32 2 ++ PutUint32 3 ++ [x01]) = Err e
          ∧ (e = io_EOF ∨ e = io_ErrUnexpectedEOF)).
Proof.
  apply (decodeUint8Obs_truncated 2 [x02; x00] (PutUint32 3 ++ [x01])).
  - simpl. lia.
  - lia.
  - vm_compute. reflexivity.
Defined.

(** ** Actions *)

Section ActionProperties.
Context `{!JSON}.

(** X10: an action of a type other than 0 is rejected on its type byte
    alone: the ByteField that follows it stays unread in the stream. *)
Theorem readAction_unsupported_type (t : byte) (rest : list byte) :
  t ≠ x00 →
  readAction (t :: rest)
  = (Err (errorString
            ("unsupported action type: " ++ fmt_d (byte_to_Z t))%string),
     rest).
Proof.
  intros H0. unfold readAction. io_unfold. rewrite binary_Read_uint8_cons.
  apply byte_to_Z_neq in H0. change (byte_to_Z x00) with 0 in H0.
  destruct (Z.eqb_spec (byte_to_Z t) 0); [contradiction|]. reflexivity.
Qed.

(** X11: what [writeAction] writes for an action whose JSON text is [js]
    is the type byte 0 and the ByteField of [js], and [readAction] on
    these bytes hands exactly [js] to the JSON decoder. *)
Theorem writeAction_readAction (act : Value) (js rest : list byte) :
  json_Marshal act = Ok js → len js < 2 ^ 32 →
  writeAction act [] = (Ok tt, x00 :: ByteField js)
  ∧ readAction ((x00 :: ByteField js) ++ rest) = (json_Unmarshal js, rest).
Proof.
  intros Hjs Hl. split.
  - unfold writeAction. io_unfold. unfold lift_result. rewrite Hjs.
    unfold io_Write at 1, bytes_Writer, bytes_Write.
    rewrite writeByteField_bytes, PutUint32_uint32. reflexivity.
  - unfold readAction. io_unfold. cbn [app].
    rewrite binary_Read_uint8_cons. cbn [negb Z.eqb byte_to_Z].
    change (byte_to_Z x00 =? 0) with true. cbn [negb].
    rewrite (reads_as_ByteField js Hl rest). reflexivity.
Qed.
End ActionProperties.

Lemma readAction_unsupported_type_witness :
  @readAction demo_JSON _ _ (x01 :: ByteField demo_action)
  = (Err (errorString "unsupported action type: 1"), ByteField demo_action).
Proof.
  apply (@readAction_unsupported_type demo_JSON x01 (ByteField demo_action)).
  discriminate.
Defined.

Lemma writeAction_readAction_witness :
  @writeAction demo_JSON _ _ demo_action [] = (Ok tt, x00 :: ByteField demo_action)
  ∧ @readAction demo_JSON _ _ ((x00 :: ByteField demo_action) ++ [x07])
    = (@json_Unmarshal demo_JSON demo_action, [x07]).
Proof.
  apply (@writeAction_readAction demo_JSON demo_action demo_action [x07]).
  - reflexivity.
  - vm_compute. reflexivity.
Defined.

(** * Further properties of the client *)



Section ClientProperties.
Context {json : JSON} {platform : Platform}.

(** The request and response phases of the simple calls. *)
Lemma Reset_run (c : connEnv) :
  healthy c →
  Reset c
  = match request_then readObservation c [x00] with
    | (r, c') => (AddCtxTo "reset environment" r, c')
    end.
Proof.
  intros (Hcl & Hfl & Hwe). destruct c as [[inc snt flt cl] wb we].
  cbn in Hcl, Hfl, Hwe. subst cl flt we.
  unfold Reset, defer_AddCtxTo. io_unfold.
  rewrite writePacketType_run, bufio_Flush_run.
  rewrite (lifts_run _ _ _ _ _ _ _ lifts_readObservation).
  unfold request_then, exchanged. cbn [conn incoming sent wbuf].
  destruct (readObservation inc). reflexivity.
Qed.

(** X12: on a healthy connection [Reset] puts the single byte 0 on the
    wire, after what was written before, and returns an observation [o]
    exactly when the incoming bytes start with an encoding of [o], which
    is all it consumes. *)
Theorem Reset_ok_iff (c c' : connEnv) (o : Obs) :
  healthy c →
  Reset c = (Ok o, c')
  ↔ ∃ ob rest,
      incoming (conn c) = ob ++ rest
      ∧ reads_as readObservation ob o
      ∧ c' = exchanged c [x00] rest.
Proof.
  intros Hc. rewrite (Reset_run c Hc). unfold request_then. split.
  - destruct (readObservation (incoming (conn c))) as [[o'|e] s1] eqn:E;
      [|discriminate].
    cbn. intros [= <- <-].
    apply readObservation_inv in E as (ob & E & Hob). eauto.
  - intros (ob & rest & Hinc & Hob & ->). rewrite Hinc, (Hob rest).
    reflexivity.
Qed.

(** X13: [ActionSpace] and [ObservationSpace] send the GetSpace packet type
    followed by the selector 0 resp. 1 and flush; when the server answers
    with the ByteField of [data], they consume exactly that field and
    return what the JSON decoder makes of [data].  They differ in the
    selector byte only. *)
Theorem Space_requests (c : connEnv) (data rest : list byte) :
  healthy c →
  incoming (conn c) = ByteField data ++ rest → len data < 2 ^ 32 →
  ActionSpace c = (json_Unmarshal data, exchanged c [x02; x00] rest)
  ∧ ObservationSpace c = (json_Unmarshal data, exchanged c [x02; x01] rest).
Proof.
  intros (Hcl & Hfl & Hwe) Hinc Hd. destruct c as [[inc snt flt cl] wb we].
  cbn [conn incoming closed fault werr] in Hcl, Hfl, Hwe, Hinc.
  subst cl flt we inc.
  unfold ActionSpace, ObservationSpace, getSpace, writeSpaceType.
  rewrite !AddCtxTo_on_entry_body. io_unfold.
  rewrite !writePacketType_run, !bufio_Flush_run.
  rewrite !(lifts_run _ _ _ _ _ _ _ lifts_readByteField).
  rewrite (reads_as_ByteField data Hd rest).
  unfold exchanged, lift_result.
  cbn [conn incoming sent wbuf]. rewrite <- !app_assoc.
  split; reflexivity.
Qed.

(** X14: when the server answers [SampleAction] with the bytes that
    [writeAction] writes for an action of JSON text [js], the call sends
    the single byte 3 and returns what the JSON decoder makes of [js]. *)
Theorem SampleAction_decodes_written_action (c : connEnv)
    (js rest : list byte) :
  healthy c → len js < 2 ^ 32 →
  incoming (conn c) = (x00 :: ByteField js) ++ rest →
  SampleAction c = (json_Unmarshal js, exchanged c [x03] rest).
Proof.
  intros (Hcl & Hfl & Hwe) Hl Hinc. destruct c as [[inc snt flt cl] wb we].
  cbn [conn incoming closed fault werr] in Hcl, Hfl, Hwe, Hinc.
  subst cl flt we inc.
  unfold SampleAction. rewrite AddCtxTo_on_entry_body. io_unfold.
  rewrite writePacketType_run, bufio_Flush_run.
  rewrite (lifts_run _ _ _ _ _ _ _ lifts_readAction).
  unfold readAction. io_unfold. cbn [app].
  rewrite binary_Read_uint8_cons.
  change (byte_to_Z x00 =? 0) with true. cbn [negb].
  rewrite (reads_as_ByteField js Hl rest). reflexivity.
Qed.

(** X15: [Render] sends the single byte 5, flushes, and reads nothing: the
    incoming bytes are left as they are. *)
Theorem Render_reads_nothing (c : connEnv) :
  healthy c →
  Render c = (Ok tt, exchanged c [x05] (incoming (conn c))).
Proof.
  intros (Hcl & Hfl & Hwe). destruct c as [[inc snt flt cl] wb we].
  cbn in Hcl, Hfl, Hwe. subst cl flt we.
  unfold Render. rewrite AddCtxTo_on_entry_body. io_unfold.
  rewrite writePacketType_run, bufio_Flush_run. reflexivity.
Qed.

(** X16: when [filepath.Abs] fails, [Monitor] returns its error having
    already written the packet type and the three booleans; where the
    write buffer has room for these four bytes they stay in it, unflushed,
    and the next call sends them ahead of its own request. *)
Theorem Monitor_abs_failure_leaves_bytes (dir : string)
    (force resume video : bool) (e : error) (c : connEnv) :
  healthy c → len (wbuf c) + 4 ≤ defaultBufSize →
  filepath_Abs dir = Err e →
  Monitor dir force resume video c
  = (Err e, pending c [x04; bool_byte resume; bool_byte force; bool_byte video])
  ∧ Render (pending c [x04; bool_byte resume; bool_byte force; bool_byte video])
    = (Ok tt,
       exchanged c
         ([x04; bool_byte resume; bool_byte force; bool_byte video] ++ [x05])
         (incoming (conn c))).
Proof.
  intros (Hcl & Hfl & Hwe) _ Habs. destruct c as [[inc snt flt cl] wb we].
  cbn in Hcl, Hfl, Hwe. subst cl flt we. split.
  - unfold Monitor. rewrite AddCtxTo_on_entry_body.
    cbn [for_range]. io_unfold. unfold lift_result.
    rewrite writePacketType_run, !writeBool_run, Habs.
    unfold pending. cbn [conn wbuf werr]. rewrite <- !app_assoc. reflexivity.
  - unfold Render, pending. cbn [conn wbuf werr].
    rewrite AddCtxTo_on_entry_body. io_unfold.
    rewrite writePacketType_run, bufio_Flush_run.
    unfold exchanged. cbn [conn incoming sent wbuf].
    rewrite <- !app_assoc. reflexivity.
Qed.


(** X18: [Step] returns what it has decoded together with the error: when
    the done byte is neither 0 nor 1, the observation and the reward are
    set, and the error names the byte under the context of [Step]. *)
Theorem Step_invalid_done_keeps_results (action : Value) (js : list byte)
    (c : connEnv) (ob rb rest : list byte) (o : Obs) (v : byte) :
  healthy c → json_Marshal action = Ok js →
  incoming (conn c) = ob ++ rb ++ [v] ++ rest →
  reads_as readObservation ob o → length rb = 8%nat →
  v ≠ x00 → v ≠ x01 →
  Step action c
  = (mkStep (Some o) (Float64frombits (Uint64 rb)) false None
       (Some (CtxError "step environment"
                (errorString ("invalid bool: " ++ fmt_d (byte_to_Z v))%string))),
     exchanged c (Step_request js) rest).
Proof.
  intros (Hcl & Hfl & Hwe) Hjs Hinc Hob Hrb H0 H1.
  destruct c as [[inc snt flt cl] wb we].
  cbn [conn incoming closed fault werr] in Hcl, Hfl, Hwe, Hinc.
  subst cl flt we inc. unfold Step, exchanged.
  rewrite writePacketType_run.
  unfold writeAction. io_unfold. unfold lift_result. rewrite Hjs.
  rewrite io_Write_run, writeByteField_run, bufio_Flush_run.
  rewrite (lifts_run _ _ _ _ _ _ _ lifts_readObservation), (Hob _).
  rewrite (lifts_run _ _ _ _ _ _ _ lifts_readReward).
  rewrite (reads_as_readReward rb Hrb _).
  rewrite (lifts_run _ _ _ _ _ _ _ lifts_readBool).
  cbn [app].
  unfold readBool. io_unfold. rewrite binary_Read_uint8_cons.
  apply byte_to_Z_neq in H0, H1.
  change (byte_to_Z x00) with 0 in H0. change (byte_to_Z x01) with 1 in H1.
  destruct (Z.eqb_spec (byte_to_Z v) 0); [contradiction|].
  destruct (Z.eqb_spec (byte_to_Z v) 1); [contradiction|].
  unfold Step_request. cbn [conn sent wbuf negb andb].
  rewrite <- !app_assoc. reflexivity.
Qed.

(** X19: when the server closes the connection without answering the
    handshake, [Make] fails with the end-of-input error under its context,
    having sent the marker byte and the environment name, and closes the
    connection. *)
Theorem Make_silent_server (host envName : string) (cn : net_Conn) :
  net_Dial "tcp" host = Ok cn →
  closed cn = false → fault cn = None → incoming cn = [] →
  Make host envName
  = (Err (CtxError "make environment" io_EOF),
     Some (mkConn []
             (sent cn ++ [x00] ++ ByteField (list_byte_of_string envName))
             None true)).
Proof.
  intros Hdial Hcl Hfl Hinc. destruct cn as [inc snt flt cl].
  cbn [closed fault incoming] in Hcl, Hfl, Hinc. subst cl flt inc.
  unfold Make. rewrite Hdial, handshake_run. reflexivity.
Qed.
End ClientProperties.

(** ** A closed handle *)

Lemma bufio_Flush_closed (inc snt : list byte) (flt : option error)
    (wb : list byte) :
  wb ≠ [] →
  bufio_Flush (mkRW (mkConn inc snt flt true) wb None)
  = (Err ErrClosed, mkRW (mkConn inc snt flt true) wb (Some ErrClosed)).
Proof.
  intros H. destruct wb; [contradiction|]. reflexivity.
Qed.

Ltac nonempty_tac :=
  let E := fresh in
  intros E; apply (f_equal length) in E;
  rewrite ?length_app in E; cbn [length] in E; lia.

Ltac closed_handle_tac :=
  unfold fails_untouched;
  rewrite ?AddCtxTo_on_entry_body; unfold defer_AddCtxTo;
  cbn [for_range]; io_unfold; unfold lift_result;
  repeat first
    [ rewrite writePacketType_run
    | rewrite writeBool_run
    | rewrite writeByteField_run
    | rewrite io_Write_run
    | rewrite bufio_Flush_closed by nonempty_tac
    | match goal with
      | |- context [json_Marshal ?v] => destruct (json_Marshal v)
      | |- context [filepath_Abs ?d] => destruct (filepath_Abs d)
      end ];
  eexists _, _; split; reflexivity.

Section ClosedProperties.
Context {json : JSON} {platform : Platform}.

Lemma closed_handle_calls_fail (c : connEnv) :
  closed (conn c) = true →
  fails_untouched Reset c
  ∧ fails_untouched ActionSpace c
  ∧ fails_untouched ObservationSpace c
  ∧ fails_untouched SampleAction c
  ∧ fails_untouched Render c
  ∧ (∀ dir force resume video,
       fails_untouched (Monitor dir force resume video) c)
  ∧ (∀ options, fails_untouched (UniverseConfigure options) c)
  ∧ (∀ wrapper options, fails_untouched (UniverseWrap wrapper options) c)
  ∧ (∀ options, fails_untouched (RetroConfigure options) c)
  ∧ (∀ wrapper options, fails_untouched (RetroWrap wrapper options) c)
  ∧ (∀ action, ∃ e c',
       Step action c = (mkStep None 0 false None (Some e), c')
       ∧ conn c' = conn c).
Proof.
  intros Hcl. destruct c as [[inc snt flt cl] wb we].
  cbn in Hcl. subst cl.
  unfold ActionSpace, ObservationSpace, getSpace, writeSpaceType.
  destruct we as [e|].
  - repeat split; intros;
      unfold fails_untouched; eexists _, _; split; reflexivity.
  - repeat split; intros.
    + unfold Reset. closed_handle_tac.
    + closed_handle_tac.
    + closed_handle_tac.
    + unfold SampleAction. closed_handle_tac.
    + unfold Render. closed_handle_tac.
    + unfold Monitor. closed_handle_tac.
    + unfold UniverseConfigure. closed_handle_tac.
    + unfold UniverseWrap. closed_handle_tac.
    + unfold RetroConfigure. closed_handle_tac.
    + unfold RetroWrap. closed_handle_tac.
    + unfold Step. rewrite writePacketType_run.
      unfold writeAction. io_unfold. unfold lift_result.
      destruct (json_Marshal action).
      * rewrite io_Write_run, writeByteField_run.
        rewrite bufio_Flush_closed by nonempty_tac.
        eexists _, _; split; reflexivity.
      * eexists _, _; split; reflexivity.
Qed.

(** X20: [Close] closes the connection without sending anything, and on a
    closed handle every method returns an error and leaves the connection
    untouched: nothing more is sent and nothing is consumed. *)
Theorem Close_then_calls_fail (c : connEnv) :
  closed (conn c) = false →
  ∃ c1, Close c = (Ok tt, c1)
        ∧ sent (conn c1) = sent (conn c)
        ∧ incoming (conn c1) = incoming (conn c)
        ∧ (∃ e, Close c1 = (Err e, c1))
        ∧ fails_untouched Reset c1
        ∧ fails_untouched ActionSpace c1
        ∧ fails_untouched ObservationSpace c1
        ∧ fails_untouched SampleAction c1
        ∧ fails_untouched Render c1
        ∧ (∀ dir force resume video,
             fails_untouched (Monitor dir force resume video) c1)
        ∧ (∀ options, fails_untouched (UniverseConfigure options) c1)
        ∧ (∀ wrapper options, fails_untouched (UniverseWrap wrapper options) c1)
        ∧ (∀ options, fails_untouched (RetroConfigure options) c1)
        ∧ (∀ wrapper options, fails_untouched (RetroWrap wrapper options) c1)
        ∧ (∀ action, ∃ e c',
             Step action c1 = (mkStep None 0 false None (Some e), c')
             ∧ conn c' = conn c1).
Proof.
  intros Hcl. destruct c as [[inc snt flt cl] wb we]. cbn in Hcl. subst cl.
  eexists. split; [reflexivity|]. split; [reflexivity|].
  split; [reflexivity|]. split; [eexists; reflexivity|].
  apply closed_handle_calls_fail. reflexivity.
Qed.
End ClosedProperties.

(** ** Instances of the client properties *)

Lemma Reset_ok_iff_witness :
  @Reset (idle (demo_obs ++ [x07]))
  = (Ok (jsonObs (list_byte_of_string "[0.5,0.1]")),
     exchanged (idle (demo_obs ++ [x07])) [x00] [x07]).
Proof.
  apply (Reset_ok_iff (idle (demo_obs ++ [x07]))).
  - repeat split.
  - exists demo_obs, [x07]. split; [reflexivity|]. split; [|reflexivity].
    apply reads_as_readObservation; [vm_compute|]; reflexivity.
Defined.

Lemma Space_requests_witness :
  @ActionSpace demo_JSON (idle (ByteField demo_info ++ [x2a]))
  = (Ok demo_info,
     exchanged (idle (ByteField demo_info ++ [x2a])) [x02; x00] [x2a])
  ∧ @ObservationSpace demo_JSON (idle (ByteField demo_info ++ [x2a]))
    = (Ok demo_info,
       exchanged (idle (ByteField demo_info ++ [x2a])) [x02; x01] [x2a]).
Proof.
  apply (@Space_requests demo_JSON (idle (ByteField demo_info ++ [x2a]))
           demo_info [x2a]).
  - repeat split.
  - reflexivity.
  - vm_compute. reflexivity.
Defined.

Lemma SampleAction_decodes_written_action_witness :
  @SampleAction demo_JSON (idle ((x00 :: ByteField demo_action) ++ []))
  = (@json_Unmarshal demo_JSON demo_action,
     exchanged (idle ((x00 :: ByteField demo_action) ++ [])) [x03] []).
Proof.
  apply (@SampleAction_decodes_written_action demo_JSON).
  - repeat split.
  - vm_compute. reflexivity.
  - reflexivity.
Defined.

Lemma Render_reads_nothing_witness :
  Render (idle [x2a]) = (Ok tt, exchanged (idle [x2a]) [x05] [x2a]).
Proof.
  apply (Render_reads_nothing (idle [x2a])). repeat split.
Defined.

Lemma Monitor_abs_failure_leaves_bytes_witness :
  @Monitor lost_Platform "results" true false true (idle [])
  = (Err (libError "os" "getwd: no such file or directory"),
     pending (idle []) [x04; x00; x01; x01])
  ∧ Render (pending (idle []) [x04; x00; x01; x01])
    = (Ok tt, exchanged (idle []) ([x04; x00; x01; x01] ++ [x05]) []).
Proof.
  apply (@Monitor_abs_failure_leaves_bytes lost_Platform "results"
           true false true).
  - repeat split.
  - vm_compute. discriminate.
  - reflexivity.
Defined.


Lemma Step_invalid_done_keeps_results_witness :
  @Step demo_JSON demo_action (idle (demo_obs ++ demo_reward ++ [x02] ++ []))
  = (@mkStep demo_JSON (Some (jsonObs (list_byte_of_string "[0.5,0.1]")))
       (Float64frombits (Uint64 demo_reward)) false None
       (Some (CtxError "step environment" (errorString "invalid bool: 2"))),
     exchanged (idle (demo_obs ++ demo_reward ++ [x02] ++ []))
       (Step_request demo_action) []).
Proof.
  apply (@Step_invalid_done_keeps_results demo_JSON demo_action demo_action
           _ demo_obs demo_reward [] _ x02).
  - repeat split.
  - reflexivity.
  - reflexivity.
  - apply reads_as_readObservation; [vm_compute|]; reflexivity.
  - reflexivity.
  - discriminate.
  - discriminate.
Defined.

Lemma Make_silent_server_witness :
  @Make lost_Platform "mute:5001" "CartPole-v0"
  = (Err (CtxError "make environment" io_EOF),
     Some (mkConn []
             ([] ++ [x00] ++ ByteField (list_byte_of_string "CartPole-v0"))
             None true)).
Proof.
  apply (@Make_silent_server lost_Platform "mute:5001" "CartPole-v0"
           (mkConn [] [] None false));
    reflexivity.
Defined.

Lemma Close_then_calls_fail_witness :
  ∃ c1, Close (idle [x2a]) = (Ok tt, c1)
        ∧ sent (conn c1) = []
        ∧ incoming (conn c1) = [x2a]
        ∧ @fails_untouched Obs Reset c1
        ∧ fails_untouched (@SampleAction demo_JSON) c1.
Proof.
  destruct (@Close_then_calls_fail demo_JSON demo_Platform (idle [x2a]) eq_refl)
    as (c1 & HC & Hs & Hi & _ & HR & _ & _ & HS & _).
  exists c1. auto.
Defined.

(** ** Fields in sequence *)

(** X21: two fields written one after the other keep their boundary: read
    back in order they are the same two fields, and what follows them is
    left. *)
Theorem two_fields_roundtrip (a b rest : list byte) :
  len a < 2 ^ 32 → len b < 2 ^ 32 →
  ∃ s, (writeByteField a ;; writeByteField b) [] = (Ok tt, s)
       ∧ (x ← readByteField ; y ← readByteField ; ret (x, y)) (s ++ rest)
         = (Ok (a, b), rest).
Proof.
  intros Ha Hb. exists (ByteField a ++ ByteField b). split.
  - io_unfold. rewrite !writeByteField_bytes, !PutUint32_uint32.
    rewrite app_nil_l. reflexivity.
  - io_unfold. rewrite <- app_assoc.
    rewrite (reads_as_ByteField a Ha), (reads_as_ByteField b Hb).
    reflexivity.
Qed.

Lemma two_fields_roundtrip_witness :
  ∃ s, (writeByteField (list_byte_of_string "Vision") ;;
        writeByteField demo_info) [] = (Ok tt, s)
       ∧ (x ← readByteField ; y ← readByteField ; ret (x, y)) (s ++ [x07])
         = (Ok (list_byte_of_string "Vision", demo_info), [x07]).
Proof.
  apply (two_fields_roundtrip (list_byte_of_string "Vision") demo_info [x07]);
    vm_compute; reflexivity.
Defined.

(** ** The operation name on the errors of Make, Reset and Step *)

Ltac first_failure_tac :=
  eexists; split; [reflexivity|]; unfold fails_here_or;
  repeat first
    [ left; eassumption
    | right; do 2 eexists; split; [eassumption|]
    | split; [reflexivity|eassumption]
    | eassumption ].

(** Case analysis on the next call of a sequence, the one whose head is
    given. *)
Tactic Notation "next_call" open_constr(pat) "as" simple_intropattern(ip)
    "eqn" ":" ident(E) :=
  match goal with
  | |- context [match ?m with pair _ _ => _ end] =>
      unify m pat; destruct m as ip eqn:E
  end.

(** X22: every error that [Make], [Reset] or [Step] returns, whatever the
    connection and the input, is the error of the first call that failed
    inside it, wrapped under the name of the operation, and the state is
    the one that call left: for [Make] the dial or the handshake; for
    [Reset] the packet type write, the flush or the reading of the
    observation; for [Step] the packet type write, the action write, the
    flush, the reading of the observation, the reward, the done flag or
    the info field, or the JSON decoding of the info field. *)
Theorem deferred_context_on_every_error `{!JSON} `{!Platform}
    (host envName : string) (action : Value) (c : connEnv) :
  (∀ e cn, Make host envName = (Err e, cn) →
     ∃ e0, e = CtxError "make environment" e0
       ∧ ((net_Dial "tcp" host = Err e0 ∧ cn = None)
          ∨ ∃ cn0 rw',
              net_Dial "tcp" host = Ok cn0
              ∧ handshake envName (NewReadWriter cn0) = (Err e0, rw')
              ∧ cn = Some (snd (conn_Close (conn rw')))))
  ∧ (∀ e c', Reset c = (Err e, c') →
       ∃ e0, e = CtxError "reset environment" e0
         ∧ fails_here_or (writePacketType packetReset) c e0 c' (λ _ c1,
           fails_here_or bufio_Flush c1 e0 c' (λ _ c2,
           readObservation c2 = (Err e0, c'))))
  ∧ (∀ r c' e, Step action c = (r, c') → err r = Some e →
       ∃ e0, e = CtxError "step environment" e0
         ∧ fails_here_or (writePacketType packetStep) c e0 c' (λ _ c1,
           fails_here_or (writeAction action) c1 e0 c' (λ _ c2,
           fails_here_or bufio_Flush c2 e0 c' (λ _ c3,
           fails_here_or readObservation c3 e0 c' (λ _ c4,
           fails_here_or readReward c4 e0 c' (λ _ c5,
           fails_here_or readBool c5 e0 c' (λ _ c6,
           fails_here_or readByteField c6 e0 c' (λ infoData c7,
           c7 = c' ∧ json_Unmarshal infoData = Err e0)))))))).
Proof.
  split; [|split].
  - intros e cn. unfold Make.
    destruct (net_Dial "tcp" host) as [cn0|e0] eqn:Hd.
    + destruct (handshake envName (NewReadWriter cn0)) as [[[]|e1] rw'] eqn:Hh;
        [discriminate|].
      cbn. intros [= <- <-]. eexists. split; [reflexivity|].
      right. exists cn0, rw'. auto.
    + cbn. intros [= <- <-]. eexists. split; [reflexivity|]. left. auto.
  - intros e c'. unfold Reset, defer_AddCtxTo. io_unfold.
    next_call (writePacketType _ _) as [[[]|e1] c1] eqn:E1;
      [|cbn; intros [= <- <-]; first_failure_tac].
    next_call (bufio_Flush _) as [[[]|e2] c2] eqn:E2;
      [|cbn; intros [= <- <-]; first_failure_tac].
    next_call (readObservation _) as [[o|e3] c3] eqn:E3; [discriminate|].
    cbn. intros [= <- <-]. first_failure_tac.
  - intros r c' e. unfold Step.
    next_call (writePacketType _ _) as [[[]|e1] c1] eqn:E1;
      [|intros [= <- <-]; cbn; intros [= <-]; first_failure_tac].
    next_call (writeAction _ _) as [[[]|e2] c2] eqn:E2;
      [|intros [= <- <-]; cbn; intros [= <-]; first_failure_tac].
    next_call (bufio_Flush _) as [[[]|e3] c3] eqn:E3;
      [|intros [= <- <-]; cbn; intros [= <-]; first_failure_tac].
    next_call (readObservation _) as [[o|e4] c4] eqn:E4;
      [|intros [= <- <-]; cbn; intros [= <-]; first_failure_tac].
    next_call (readReward _) as [[rw|e5] c5] eqn:E5;
      [|intros [= <- <-]; cbn; intros [= <-]; first_failure_tac].
    next_call (readBool _) as [[d|e6] c6] eqn:E6;
      [|intros [= <- <-]; cbn; intros [= <-]; first_failure_tac].
    next_call (readByteField _) as [[infoData|e7] c7] eqn:E7;
      [|intros [= <- <-]; cbn; intros [= <-]; first_failure_tac].
    destruct (json_Unmarshal infoData) as [i|e8] eqn:E8;
      intros [= <- <-]; cbn; intros [= <-]; first_failure_tac.
Qed.

(** ** Between two calls *)




Section SuccessProperties.
Context {json : JSON} {platform : Platform}.



End SuccessProperties.


Lemma decodeUint8Obs_no_overflow_witness :
  decodeUint8Obs (shaped_payload [2; 3] [x01; x02; x03; x04; x05; x06])
  = Ok (uint8Obs [2; 3] [x01; x02; x03; x04; x05; x06]).
Proof.
  apply (decodeUint8Obs_no_overflow [2; 3] [x01; x02; x03; x04; x05; x06]).
  - reflexivity.
  - repeat constructor; unfold is_uint32; lia.
  - reflexivity.
  - repeat split. discriminate.
Defined.

Lemma decodeUint8Obs_ok_inv_witness :
  ∃ ds vals,
    uint8Obs [2; 3] [x01; x02; x03; x04; x05; x06] = uint8Obs ds vals
    ∧ shaped_payload [2; 3] [x01; x02; x03; x04; x05; x06]
      = shaped_payload ds vals
    ∧ ds ≠ [] ∧ len ds < 2 ^ 32 ∧ Forall is_uint32 ds
    ∧ int_wrap (shape_product ds) = len vals.
Proof.
  apply (decodeUint8Obs_ok_inv
           (shaped_payload [2; 3] [x01; x02; x03; x04; x05; x06])).
  vm_compute. reflexivity.
Defined.

Lemma deferred_context_on_every_error_witness :
  ∃ e0, CtxError "make environment" (errorString "no such env")
        = CtxError "make environment" e0
        ∧ ((@net_Dial demo_Platform "tcp" "other:5001" = Err e0
            ∧ snd (@Make demo_Platform "other:5001" "CartPole-v0") = None)
           ∨ ∃ cn0 rw',
               @net_Dial demo_Platform "tcp" "other:5001" = Ok cn0
               ∧ handshake "CartPole-v0" (NewReadWriter cn0) = (Err e0, rw')
               ∧ snd (@Make demo_Platform "other:5001" "CartPole-v0")
                 = Some (snd (conn_Close (conn rw')))).
Proof.
  destruct (@deferred_context_on_every_error demo_JSON demo_Platform
              "other:5001" "CartPole-v0" demo_action (idle []))
    as (HM & _ & _).
  apply HM. vm_compute. reflexivity.
Defined.
